(** * Black-Scholes.ipynb: the [BlackScholes] pricer, embedded over the reals

    The notebook defines one function,

      def BlackScholes(r, S, K, T, sigma, option_type="C", q=0)

    which computes d1 and d2, five local closures (calc_delta, calc_gamma,
    calc_vega, calc_theta, calc_rho), and then, inside a try block, prints
    the price and the five Greeks with the format [:.5f]; an option type
    other than "C" or "P" raises ValueError, which the function's own
    [except ValueError as e: print(e)] handler catches.  The function has no
    return statement.

    Conventions of the embedding.
    - A Python/NumPy float is a real number: rounding, overflow and the IEEE
      special values are not represented.  [np.log], [np.sqrt] and NumPy
      division never raise (outside their domain they yield nan or inf and
      a warning); here they are Rocq's total functions, whose value outside
      the domain carries no meaning.  The one division on plain Python
      numbers, [S / K], raises ZeroDivisionError when K is zero.
    - Standard output is a list of lines; a formatted number is kept as the
      real it was formatted from, next to the text in front of it.
    - [scipy.stats.norm] is the standard normal law: [pdf] is the closed form
      of its density and [cdf] is one half plus the integral of the density
      from 0, which is how the error function behind scipy's ndtr is defined. *)

From Stdlib Require Import Reals Lra Lia Arith String List Bool.
Import ListNotations.

Local Open Scope R_scope.

(** ** numpy *)

Module np.
Definition log (x : R) : R := ln x.
Definition sqrt (x : R) : R := R_sqrt.sqrt x.
Definition exp (x : R) : R := Rtrigo_def.exp x.
End np.

(** ** scipy.stats.norm *)

Module norm.

(** _norm_pdf(x) = exp(-x**2/2) / sqrt(2*pi) *)
Definition std_pdf (x : R) : R := exp (- x ^ 2 / 2) / sqrt (2 * PI).

Lemma std_pdf_continuity : continuity std_pdf.
Proof.
  unfold std_pdf. intro x.
  apply continuity_pt_mult.
  - apply (continuity_pt_comp (fun t => - t ^ 2 / 2) exp).
    + reg.
    + apply derivable_continuous_pt, derivable_pt_exp.
  - apply continuity_pt_const. intros a b. reflexivity.
Qed.

Lemma std_pdf_integrable (a b : R) : Riemann_integrable std_pdf a b.
Proof.
  destruct (Rle_dec a b) as [Hab | Hab].
  - apply continuity_implies_RiemannInt; [exact Hab |].
    intros x _. apply std_pdf_continuity.
  - apply RiemannInt_P1, continuity_implies_RiemannInt; [lra |].
    intros x _. apply std_pdf_continuity.
Qed.

(** ndtr(x): the area under the standard density up to x, that is
    1/2 + erf(x / sqrt 2) / 2 = 1/2 + the integral of the density on [0, x]. *)
Definition std_cdf (x : R) : R := 1 / 2 + RiemannInt (std_pdf_integrable 0 x).

(** norm.pdf(x, loc, scale) and norm.cdf(x, loc, scale) *)
Definition pdf (x loc scale : R) : R := std_pdf ((x - loc) / scale) / scale.
Definition cdf (x loc scale : R) : R := std_cdf ((x - loc) / scale).

End norm.

(** ** The effects of the function: printing and exceptions *)

Inductive line : Type :=
| Text (s : string)                   (* print(s) *)
| Field (label : string) (value : R). (* print(f"<label>{value:.5f}") *)

Inductive exn : Type :=
| ValueError (msg : string)
| ZeroDivisionError
| TypeError (msg : string).

Definition stdout : Type := list line.

(** A statement run from the output printed so far: the output afterwards, and
    either the exception that left it or its value. *)
Definition py (A : Type) : Type := stdout -> stdout * (exn + A).

Definition ret {A} (a : A) : py A := fun out => (out, inr a).

Definition bind {A B} (m : py A) (k : A -> py B) : py B :=
  fun out =>
    match m out with
    | (out', inl e) => (out', inl e)
    | (out', inr a) => k a out'
    end.

Definition raise {A} (e : exn) : py A := fun out => (out, inl e).

Definition print (l : line) : py unit := fun out => (out ++ [l], inr tt).

(** try: body / except ValueError as e: handler(e) *)
Definition try_except_ValueError {A} (body : py A) (handler : string -> py A) : py A :=
  fun out =>
    match body out with
    | (out', inl (ValueError msg)) => handler msg out'
    | other => other
    end.

Declare Scope py_scope.
Delimit Scope py_scope with py.
Notation "x <- m ;; k" := (bind m (fun x => k))
  (at level 61, m at next level, right associativity) : py_scope.
Notation "m ;; k" := (bind m (fun _ => k))
  (at level 61, right associativity) : py_scope.

(** a / b on Python numbers *)
Definition truediv (a b : R) : py R :=
  if Req_dec_T b 0 then raise ZeroDivisionError
  else ret (a / b).

(** print(f"<label>{v:.5f}"), where v may be None *)
Definition print_f (label : string) (v : option R) : py unit :=
  match v with
  | Some x => print (Field label x)
  | None => raise (TypeError "unsupported format string passed to NoneType.__format__")
  end.

(** ** BlackScholes *)

Definition invalid_option_type_msg : string :=
  "Invalid option type! Please confirm option type either 'C' for Call option or 'P' for Put option".

Section Closures.

(** The parameters and the two locals the nested functions close over. *)
Variables (r S K T sigma : R) (option_type : string) (q : R).
Variables (d1 d2 : R).

Definition calc_delta : option R :=
  if (option_type =? "C")%string then Some (norm.cdf d1 0 1)
  else if (option_type =? "P")%string then Some (- norm.cdf (- d1) 0 1)
  else None.

Definition calc_gamma : R :=
  norm.pdf d1 0 1 / (S * sigma * np.sqrt T).

Definition calc_vega : R :=
  (S * norm.pdf d1 0 1 * np.sqrt T) * (1 / 100).

Definition calc_theta : option R :=
  if (option_type =? "C")%string then
    Some ((- S * norm.pdf d1 0 1 * sigma / (2 * np.sqrt T)
           + q * S * norm.cdf d1 0 1
           - r * K * np.exp (- r * T) * norm.cdf d2 0 1) / 252)
  else if (option_type =? "P")%string then
    Some ((- S * norm.pdf d1 0 1 * sigma / (2 * np.sqrt T)
           - q * S * norm.cdf (- d1) 0 1
           + r * K * np.exp (- r * T) * norm.cdf (- d2) 0 1) / 252)
  else None.

Definition calc_rho : option R :=
  if (option_type =? "C")%string then
    Some ((K * T * np.exp (- r * T) * norm.cdf d2 0 1) * (1 / 100))
  else if (option_type =? "P")%string then
    Some ((- K * T * np.exp (- r * T) * norm.cdf (- d2) 0 1) * (1 / 100))
  else None.

(** The body of the try block. *)
Definition try_body : py unit :=
  (let delta := calc_delta in
   let gamma := calc_gamma in
   let vega := calc_vega in
   let theta := calc_theta in
   let rho := calc_rho in
   if (option_type =? "C")%string then
     let price := S * np.exp (- q * T) * norm.cdf d1 0 1
                  - K * np.exp (- r * T) * norm.cdf d2 0 1 in
     print_f "Call Option Price: " (Some price) ;;
     print (Text "-----------------") ;;
     print_f "Call Delta: " delta ;;
     print_f "Gamma: " (Some gamma) ;;
     print_f "Vega: " (Some vega) ;;
     print_f "Call Theta: " theta ;;
     print_f "Call Rho: " rho
   else if (option_type =? "P")%string then
     let price := K * np.exp (- r * T) * norm.cdf (- d2) 0 1
                  - S * np.exp (- q * T) * norm.cdf (- d1) 0 1 in
     print_f "Put Option Price: " (Some price) ;;
     print (Text "-----------------") ;;
     print_f "Put Delta: " delta ;;
     print_f "Gamma: " (Some gamma) ;;
     print_f "Vega: " (Some vega) ;;
     print_f "Put Theta: " theta ;;
     print_f "Put Rho: " rho
   else raise (ValueError invalid_option_type_msg))%py.

End Closures.

Definition BlackScholes (r S K T sigma : R) (option_type : string) (q : R) : py unit :=
  (ratio <- truediv S K ;;
   let d1 := (np.log ratio + (r - q + sigma ^ 2 / 2) * T) / (sigma * np.sqrt T) in
   let d2 := d1 - sigma * np.sqrt T in
   try_except_ValueError
     (try_body r S K T sigma option_type q d1 d2)
     (fun e => print (Text e)))%py.

(** The signature's defaults: option_type="C", q=0.  An argument left out at
    the call is None here. *)
Definition BlackScholes_call (r S K T sigma : R)
    (option_type : option string) (q : option R) : py unit :=
  BlackScholes r S K T sigma
    (match option_type with Some o => o | None => "C"%string end)
    (match q with Some q' => q' | None => 0 end).

(** A call from a fresh cell: nothing printed yet. *)
Definition run {A} (m : py A) : stdout * (exn + A) := m [].

(** The number printed after a given text, if there is such a line. *)
Fixpoint printed (label : string) (out : stdout) : option R :=
  match out with
  | [] => None
  | Field l v :: rest => if (l =? label)%string then Some v else printed label rest
  | Text _ :: rest => printed label rest
  end.

(** ** The formulas of the specification

    Written from the specification (section 4.2 and the notebook's first
    cell), to be compared with what the code prints. *)

Module Spec.

(** N and N': distribution function and density of the standard normal law. *)
Definition N (x : R) : R := norm.std_cdf x.
Definition N' (x : R) : R := norm.std_pdf x.

Section Formulas.
Variables (r S K T sigma q : R).

Definition d1 : R := (ln (S / K) + (r - q + sigma ^ 2 / 2) * T) / (sigma * sqrt T).
Definition d2 : R := d1 - sigma * sqrt T.

Definition call_price : R := S * exp (- q * T) * N d1 - K * exp (- r * T) * N d2.
Definition put_price : R := K * exp (- r * T) * N (- d2) - S * exp (- q * T) * N (- d1).

Definition call_delta : R := exp (- q * T) * N d1.
Definition put_delta : R := - exp (- q * T) * N (- d1).

Definition gamma : R := exp (- q * T) * N' d1 / (S * sigma * sqrt T).
Definition vega : R := (1 / 100) * S * exp (- q * T) * N' d1 * sqrt T.

Definition call_theta : R :=
  (1 / 252) * (- S * exp (- q * T) * N' d1 * sigma / (2 * sqrt T)
               + q * S * exp (- q * T) * N d1
               - r * K * exp (- r * T) * N d2).
Definition put_theta : R :=
  (1 / 252) * (- S * exp (- q * T) * N' d1 * sigma / (2 * sqrt T)
               - q * S * exp (- q * T) * N (- d1)
               + r * K * exp (- r * T) * N (- d2)).

Definition call_rho : R := (1 / 100) * K * T * exp (- r * T) * N d2.
Definition put_rho : R := - (1 / 100) * K * T * exp (- r * T) * N (- d2).
End Formulas.

End Spec.

(** ** What a call prints *)

Section ResultLines.

Variables (r S K T sigma q : R).

Let d1 : R := (np.log (S / K) + (r - q + sigma ^ 2 / 2) * T) / (sigma * np.sqrt T).
Let d2 : R := d1 - sigma * np.sqrt T.

(** The seven lines of a call with option_type "C". *)
Definition call_lines : list line :=
  [ Field "Call Option Price: "
      (S * np.exp (- q * T) * norm.cdf d1 0 1 - K * np.exp (- r * T) * norm.cdf d2 0 1);
    Text "-----------------";
    Field "Call Delta: " (norm.cdf d1 0 1);
    Field "Gamma: " (norm.pdf d1 0 1 / (S * sigma * np.sqrt T));
    Field "Vega: " ((S * norm.pdf d1 0 1 * np.sqrt T) * (1 / 100));
    Field "Call Theta: "
      ((- S * norm.pdf d1 0 1 * sigma / (2 * np.sqrt T)
        + q * S * norm.cdf d1 0 1
        - r * K * np.exp (- r * T) * norm.cdf d2 0 1) / 252);
    Field "Call Rho: " ((K * T * np.exp (- r * T) * norm.cdf d2 0 1) * (1 / 100)) ].

(** The seven lines of a call with option_type "P". *)
Definition put_lines : list line :=
  [ Field "Put Option Price: "
      (K * np.exp (- r * T) * norm.cdf (- d2) 0 1 - S * np.exp (- q * T) * norm.cdf (- d1) 0 1);
    Text "-----------------";
    Field "Put Delta: " (- norm.cdf (- d1) 0 1);
    Field "Gamma: " (norm.pdf d1 0 1 / (S * sigma * np.sqrt T));
    Field "Vega: " ((S * norm.pdf d1 0 1 * np.sqrt T) * (1 / 100));
    Field "Put Theta: "
      ((- S * norm.pdf d1 0 1 * sigma / (2 * np.sqrt T)
        - q * S * norm.cdf (- d1) 0 1
        + r * K * np.exp (- r * T) * norm.cdf (- d2) 0 1) / 252);
    Field "Put Rho: " ((- K * T * np.exp (- r * T) * norm.cdf (- d2) 0 1) * (1 / 100)) ].

End ResultLines.

(** ** Observations on a finished call *)

(** An error is reported when an exception leaves the call, or when the
    handler printed the exception's message. *)
Definition reports_error (res : stdout * (exn + unit)) : Prop :=
  match res with
  | (_, inl _) => True
  | (out, inr _) => In (Text invalid_option_type_msg) out
  end.

(** An error is signalled to the caller when an exception leaves the call. *)
Definition signals_error (res : stdout * (exn + unit)) : Prop :=
  exists e : exn, snd res = inl e.

(** ** Polynomials that enclose exp and the normal distribution function *)

(** The partial sums of exp(-u) = sum (-1)^k u^k / k!. *)
Definition exp_neg_coeff (k : nat) : R := (-1) ^ k / INR (fact k).

Definition exp_neg_poly (n : nat) (u : R) : R :=
  sum_f_R0 (fun k => exp_neg_coeff k * u ^ k) n.

(** Their primitives at u = t^2/2, term by term:
    t - t^3/6 + t^5/40 - t^7/336 + t^9/3456. *)
Definition cdf_poly_coeff (k : nat) : R :=
  match k with
  | 1%nat => 1
  | 3%nat => - (1 / 6)
  | 5%nat => 1 / 40
  | 7%nat => - (1 / 336)
  | 9%nat => 1 / 3456
  | _ => 0
  end.

Definition cdf_poly (n : nat) (x : R) : R :=
  sum_f_R0 (fun k => cdf_poly_coeff k * x ^ k) n.

(** ** The notebook's example: BlackScholes(0.05, 50, 48, 0.5, 0.4, "C", 0.02) *)

Definition ref_d1 : R := Spec.d1 (5/100) 50 48 (1/2) (4/10) (2/100).
Definition ref_d2 : R := Spec.d2 (5/100) 50 48 (1/2) (4/10) (2/100).

(** ** The printed numbers as functions of the inputs *)

(** The number a fresh call prints after [label]; 0 stands for no such line. *)
Definition output (label : string) (r S K T sigma : R) (option_type : string) (q : R) : R :=
  match printed label (fst (run (BlackScholes r S K T sigma option_type q))) with
  | Some v => v
  | None => 0
  end.

(** * Proofs *)

(** ** The runs of BlackScholes *)

Section Runs.

Variables (r S K T sigma q : R).

Lemma BlackScholes_C (out : stdout) :
  K <> 0 ->
  BlackScholes r S K T sigma "C" q out = (out ++ call_lines r S K T sigma q, inr tt).
Proof.
  intros HK. unfold BlackScholes, bind, truediv.
  destruct (Req_dec_T K 0) as [E | _]; [contradiction |].
  unfold ret, try_except_ValueError, try_body, calc_delta, calc_theta, calc_rho,
    calc_gamma, calc_vega, print_f, print, bind. simpl.
  repeat rewrite <- app_assoc. simpl. reflexivity.
Qed.

Lemma BlackScholes_P (out : stdout) :
  K <> 0 ->
  BlackScholes r S K T sigma "P" q out = (out ++ put_lines r S K T sigma q, inr tt).
Proof.
  intros HK. unfold BlackScholes, bind, truediv.
  destruct (Req_dec_T K 0) as [E | _]; [contradiction |].
  unfold ret, try_except_ValueError, try_body, calc_delta, calc_theta, calc_rho,
    calc_gamma, calc_vega, print_f, print, bind. simpl.
  repeat rewrite <- app_assoc. simpl. reflexivity.
Qed.

Lemma BlackScholes_other (option_type : string) (out : stdout) :
  K <> 0 ->
  option_type <> "C"%string -> option_type <> "P"%string ->
  BlackScholes r S K T sigma option_type q out
  = (out ++ [Text invalid_option_type_msg], inr tt).
Proof.
  intros HK HC HP. unfold BlackScholes, bind, truediv.
  destruct (Req_dec_T K 0) as [E | _]; [contradiction |].
  unfold ret, try_except_ValueError, try_body.
  apply String.eqb_neq in HC, HP. rewrite HC, HP.
  reflexivity.
Qed.

Lemma BlackScholes_K0 (option_type : string) (out : stdout) :
  K = 0 ->
  BlackScholes r S K T sigma option_type q out
  = (out, inl ZeroDivisionError).
Proof.
  intros HK. unfold BlackScholes, bind, truediv.
  destruct (Req_dec_T K 0) as [_ | E]; [reflexivity | contradiction].
Qed.

Lemma call_lines_no_error : ~ reports_error (call_lines r S K T sigma q, inr tt).
Proof.
  unfold reports_error, call_lines. simpl.
  intros H. repeat (destruct H as [H | H]; [discriminate H |]). exact H.
Qed.

Lemma put_lines_no_error : ~ reports_error (put_lines r S K T sigma q, inr tt).
Proof.
  unfold reports_error, put_lines. simpl.
  intros H. repeat (destruct H as [H | H]; [discriminate H |]). exact H.
Qed.

End Runs.

(** Rewrites a run with option type "C" or "P" into the lines it prints; the
    side condition K <> 0 is on numerals. *)
Ltac run_BlackScholes :=
  unfold run; rewrite ?BlackScholes_C, ?BlackScholes_P by lra.

(** ** The standard normal law *)

Section StdNormal.

Import norm.

Lemma sqrt_2PI_pos : 0 < sqrt (2 * PI).
Proof. apply sqrt_lt_R0. generalize PI_RGT_0. lra. Qed.

Lemma std_pdf_pos (x : R) : 0 < std_pdf x.
Proof.
  unfold std_pdf. apply Rdiv_lt_0_compat; [apply exp_pos | apply sqrt_2PI_pos].
Qed.

Lemma std_pdf_even (x : R) : std_pdf (- x) = std_pdf x.
Proof.
  unfold std_pdf. replace (- (- x) ^ 2 / 2) with (- x ^ 2 / 2) by field.
  reflexivity.
Qed.

(** The integral does not depend on the proof of integrability. *)
Lemma std_cdf_eq (x : R) (pr : Riemann_integrable std_pdf 0 x) :
  std_cdf x = 1 / 2 + RiemannInt pr.
Proof. unfold std_cdf. f_equal. apply RiemannInt_P5. Qed.

Lemma std_cdf_0 : std_cdf 0 = 1 / 2.
Proof. unfold std_cdf. rewrite RiemannInt_P9. lra. Qed.

(** The distribution function is a primitive of the density. *)
Lemma std_cdf_derivable_pt_lim (x : R) : derivable_pt_lim std_cdf x (std_pdf x).
Proof.
  set (b := Rabs x + 1).
  assert (Hb : - b <= b) by (unfold b; generalize (Rabs_pos x); lra).
  assert (Hx : - b < x < b).
  { unfold b. destruct (Rcase_abs x) as [Hn | Hp].
    - rewrite (Rabs_left _ Hn). lra.
    - rewrite (Rabs_right _ Hp). lra. }
  pose (C0 := fun (t : R) (_ : - b <= t <= b) => std_pdf_continuity t).
  pose (c := 1 / 2 - RiemannInt (std_pdf_integrable (- b) 0)).
  apply (derivable_pt_lim_locally_ext
           (fun z => primitive Hb (FTC_P1 Hb C0) z + c) std_cdf x (- b) b).
  - exact Hx.
  - intros z Hz. unfold primitive.
    destruct (Rle_dec (- b) z) as [H1 | H1]; [| lra].
    destruct (Rle_dec z b) as [H2 | H2]; [| lra].
    unfold c, std_cdf.
    rewrite <- (RiemannInt_P26 (std_pdf_integrable (- b) 0) (std_pdf_integrable 0 z)
                  (FTC_P1 Hb C0 H1 H2)).
    ring.
  - replace (std_pdf x) with (std_pdf x + 0) by ring.
    apply derivable_pt_lim_plus.
    + apply RiemannInt_P28. lra.
    + apply derivable_pt_lim_const.
Qed.

(** N(x) + N(-x) = 1: the law is symmetric about 0. *)
Lemma std_cdf_symm (x : R) : std_cdf x + std_cdf (- x) = 1.
Proof.
  pose (g := fun t : R => std_cdf t + std_cdf (- t)).
  assert (Hg : forall t, derivable_pt_lim g t 0).
  { intro t. unfold g.
    replace 0 with (std_pdf t + std_pdf (- t) * (-1))
      by (rewrite std_pdf_even; ring).
    apply derivable_pt_lim_plus.
    - apply std_cdf_derivable_pt_lim.
    - apply (derivable_pt_lim_comp (fun u => - u) std_cdf).
      + replace (-1) with (- 1) by ring.
        apply derivable_pt_lim_opp, derivable_pt_lim_id.
      + apply std_cdf_derivable_pt_lim. }
  pose (pr := fun t => exist (fun l => derivable_pt_abs g t l) 0 (Hg t) : derivable_pt g t).
  assert (Hc : constant g).
  { apply (null_derivative_1 g pr). intro t. reflexivity. }
  change (g x = 1). rewrite (Hc x 0). unfold g.
  rewrite Ropp_0, std_cdf_0. lra.
Qed.

Lemma std_cdf_opp (x : R) : std_cdf (- x) = 1 - std_cdf x.
Proof. generalize (std_cdf_symm x). lra. Qed.

(** With loc = 0 and scale = 1 the scipy functions are N and N'. *)
Lemma cdf_0_1 (x : R) : cdf x 0 1 = Spec.N x.
Proof. unfold cdf, Spec.N. f_equal. field. Qed.

Lemma pdf_0_1 (x : R) : pdf x 0 1 = Spec.N' x.
Proof.
  unfold pdf, Spec.N'. replace ((x - 0) / 1) with x by field. field.
Qed.

End StdNormal.

(** ** Enclosures of exp(-u) *)

Lemma nonneg_from_derivative (f f' : R -> R) :
  (forall x, derivable_pt_lim f x (f' x)) ->
  f 0 = 0 ->
  (forall x, 0 <= x -> 0 <= f' x) ->
  forall x, 0 <= x -> 0 <= f x.
Proof.
  intros Hd H0 Hpos x Hx.
  destruct Hx as [Hx | <-]; [| lra].
  destruct (MVT_cor2 f f' 0 x Hx) as [c [Hc1 Hc2]].
  { intros c _. apply Hd. }
  assert (0 <= f' c) by (apply Hpos; lra).
  assert (0 <= f' c * (x - 0)) by (apply Rmult_le_pos; lra).
  lra.
Qed.

Lemma exp_neg_coeff_S (k : nat) : INR (S k) * exp_neg_coeff (S k) = - exp_neg_coeff k.
Proof.
  unfold exp_neg_coeff. rewrite fact_simpl, mult_INR.
  change ((-1) ^ S k) with (-1 * (-1) ^ k).
  field. split; [apply INR_fact_neq_0 | apply not_0_INR; discriminate].
Qed.

Lemma exp_neg_poly_derivable (n : nat) (u : R) :
  derivable_pt_lim (exp_neg_poly (S n)) u (- exp_neg_poly n u).
Proof.
  unfold exp_neg_poly.
  replace (- sum_f_R0 (fun k => exp_neg_coeff k * u ^ k) n)
    with (sum_f_R0 (fun k => INR (S k) * exp_neg_coeff (S k) * u ^ k) (pred (S n))).
  - apply (derivable_pt_lim_finite_sum exp_neg_coeff u (S n)).
  - simpl pred. induction n as [| n IH].
    + cbn [sum_f_R0]. rewrite exp_neg_coeff_S. ring.
    + rewrite !tech5, IH, exp_neg_coeff_S. ring.
Qed.

Lemma exp_neg_poly_0 (n : nat) : exp_neg_poly n 0 = 1.
Proof.
  unfold exp_neg_poly. induction n as [| n IH].
  - simpl. unfold exp_neg_coeff. simpl. field.
  - rewrite tech5, IH. rewrite pow_i by lia. ring.
Qed.

Lemma exp_neg_derivable (u : R) : derivable_pt_lim (fun t => exp (- t)) u (- exp (- u)).
Proof.
  replace (- exp (- u)) with (exp (- u) * (- 1)) by ring.
  apply (derivable_pt_lim_comp (fun t => - t) exp).
  - apply derivable_pt_lim_opp, derivable_pt_lim_id.
  - apply derivable_pt_lim_exp.
Qed.

Lemma exp_neg_alternating (n : nat) :
  forall u, 0 <= u -> 0 <= (-1) ^ n * (exp_neg_poly n u - exp (- u)).
Proof.
  induction n as [| n IH]; intros u Hu.
  - unfold exp_neg_poly, exp_neg_coeff. simpl.
    assert (exp (- u) <= 1).
    { destruct Hu as [Hu | <-].
      - left. rewrite <- exp_0. apply exp_increasing. lra.
      - rewrite Ropp_0, exp_0. lra. }
    replace (1 / 1 * 1) with 1 by field. lra.
  - apply (nonneg_from_derivative
             (fun t => (-1) ^ S n * (exp_neg_poly (S n) t - exp (- t)))
             (fun t => (-1) ^ n * (exp_neg_poly n t - exp (- t)))).
    + intro x.
      replace ((-1) ^ n * (exp_neg_poly n x - exp (- x)))
        with ((-1) ^ S n * (- exp_neg_poly n x - - exp (- x))) by (simpl; ring).
      apply derivable_pt_lim_scal.
      apply derivable_pt_lim_minus.
      * apply exp_neg_poly_derivable.
      * apply exp_neg_derivable.
    + rewrite exp_neg_poly_0, Ropp_0, exp_0. ring.
    + exact IH.
    + exact Hu.
Qed.

Lemma exp_neg_lower (k : nat) (u : R) : 0 <= u -> exp_neg_poly (S (2 * k)) u <= exp (- u).
Proof.
  intros Hu. generalize (exp_neg_alternating (S (2 * k)) u Hu).
  rewrite <- tech_pow_Rmult, pow_1_even. lra.
Qed.

Lemma exp_neg_upper (k : nat) (u : R) : 0 <= u -> exp (- u) <= exp_neg_poly (2 * k) u.
Proof.
  intros Hu. generalize (exp_neg_alternating (2 * k) u Hu).
  rewrite pow_1_even. lra.
Qed.

Lemma exp_neg_poly_4 (u : R) :
  exp_neg_poly 4 u = 1 - u + u ^ 2 / 2 - u ^ 3 / 6 + u ^ 4 / 24.
Proof. unfold exp_neg_poly, exp_neg_coeff. simpl. field. Qed.

Lemma exp_neg_poly_5 (u : R) :
  exp_neg_poly 5 u = 1 - u + u ^ 2 / 2 - u ^ 3 / 6 + u ^ 4 / 24 - u ^ 5 / 120.
Proof. unfold exp_neg_poly, exp_neg_coeff. simpl. field. Qed.

Lemma exp_neg_poly_3 (u : R) :
  exp_neg_poly 3 u = 1 - u + u ^ 2 / 2 - u ^ 3 / 6.
Proof. unfold exp_neg_poly, exp_neg_coeff. simpl. field. Qed.

(** ** Enclosures of the standard normal law *)

Lemma exp_le_mono (x y : R) : x <= y -> exp x <= exp y.
Proof.
  intros [H | ->]; [left; apply exp_increasing; exact H | right; reflexivity].
Qed.

Lemma exp_le_inv (x y : R) : exp x <= exp y -> x <= y.
Proof.
  intros H. destruct (Rle_or_lt x y) as [Hle | Hlt]; [exact Hle |].
  apply exp_increasing in Hlt. lra.
Qed.

Lemma sqrt_bracket (lo hi x : R) :
  0 <= lo -> 0 <= hi -> lo * lo <= x <= hi * hi -> lo <= sqrt x <= hi.
Proof.
  intros Hlo Hhi [H1 H2]. split.
  - rewrite <- (sqrt_square lo Hlo). apply sqrt_le_1_alt, H1.
  - rewrite <- (sqrt_square hi Hhi). apply sqrt_le_1_alt, H2.
Qed.

(** Machin's formula pi/4 = 2 atan(1/3) + atan(1/7), eight terms. *)
Lemma PI_bounds : 31415926 / 10000000 <= PI <= 31415927 / 10000000.
Proof.
  generalize (PI_2_3_7_ineq 3).
  unfold PI_2_3_7_tg, tg_alt, Ratan_seq.
  cbn [sum_f_R0 Nat.mul Nat.add].
  rewrite !S_INR, INR_0.
  intros [H1 H2].
  split; lra.
Qed.

Lemma inv_sqrt_2PI_bounds :
  39894227 / 100000000 <= / sqrt (2 * PI) <= 39894229 / 100000000.
Proof.
  destruct PI_bounds as [Hlo Hhi].
  rewrite <- sqrt_inv.
  apply sqrt_bracket; [lra | lra |].
  assert (H2 : 0 < 2 * PI) by lra.
  split.
  - apply Rle_trans with (/ (2 * (31415927 / 10000000))); [lra |].
    apply Rinv_le_contravar; lra.
  - apply Rle_trans with (/ (2 * (31415926 / 10000000))); [| lra].
    apply Rinv_le_contravar; lra.
Qed.

Lemma std_cdf_increasing (x y : R) : x <= y -> norm.std_cdf x <= norm.std_cdf y.
Proof.
  intros [Hxy | ->]; [| lra].
  destruct (MVT_cor2 norm.std_cdf norm.std_pdf x y Hxy) as [c [Hc _]].
  { intros c _. apply std_cdf_derivable_pt_lim. }
  assert (0 < norm.std_pdf c * (y - x)).
  { apply Rmult_lt_0_compat; [apply std_pdf_pos | lra]. }
  lra.
Qed.

Lemma cdf_poly_7_derivable (x : R) :
  derivable_pt_lim (cdf_poly 7) x (exp_neg_poly 3 (x ^ 2 / 2)).
Proof.
  replace (exp_neg_poly 3 (x ^ 2 / 2))
    with (sum_f_R0 (fun k => INR (S k) * cdf_poly_coeff (S k) * x ^ k) (pred 7)).
  - apply (derivable_pt_lim_finite_sum cdf_poly_coeff x 7).
  - rewrite exp_neg_poly_3. cbn [sum_f_R0 pred cdf_poly_coeff].
    rewrite !S_INR, INR_0. field.
Qed.

Lemma cdf_poly_9_derivable (x : R) :
  derivable_pt_lim (cdf_poly 9) x (exp_neg_poly 4 (x ^ 2 / 2)).
Proof.
  replace (exp_neg_poly 4 (x ^ 2 / 2))
    with (sum_f_R0 (fun k => INR (S k) * cdf_poly_coeff (S k) * x ^ k) (pred 9)).
  - apply (derivable_pt_lim_finite_sum cdf_poly_coeff x 9).
  - rewrite exp_neg_poly_4. cbn [sum_f_R0 pred cdf_poly_coeff].
    rewrite !S_INR, INR_0. field.
Qed.

Lemma cdf_poly_0 (n : nat) : cdf_poly n 0 = 0.
Proof.
  unfold cdf_poly. induction n as [| n IH].
  - simpl. ring.
  - rewrite tech5, IH, pow_i by lia. ring.
Qed.

Lemma std_pdf_eq (x : R) : norm.std_pdf x = exp (- (x ^ 2 / 2)) * / sqrt (2 * PI).
Proof. unfold norm.std_pdf, Rdiv. f_equal. f_equal. field. Qed.

Lemma std_cdf_lower (x : R) :
  0 <= x -> 1 / 2 + cdf_poly 7 x * / sqrt (2 * PI) <= norm.std_cdf x.
Proof.
  intros Hx.
  assert (Hw : 0 < / sqrt (2 * PI)) by (apply Rinv_0_lt_compat, sqrt_2PI_pos).
  assert (H : 0 <= norm.std_cdf x - (1 / 2 + cdf_poly 7 x * / sqrt (2 * PI))); [| lra].
  apply (nonneg_from_derivative
           (fun t => norm.std_cdf t - (1 / 2 + cdf_poly 7 t * / sqrt (2 * PI)))
           (fun t => norm.std_pdf t
                     - (0 + exp_neg_poly 3 (t ^ 2 / 2) * / sqrt (2 * PI)))).
  - intro t. apply derivable_pt_lim_minus; [apply std_cdf_derivable_pt_lim |].
    apply derivable_pt_lim_plus; [apply derivable_pt_lim_const |].
    replace (exp_neg_poly 3 (t ^ 2 / 2) * / sqrt (2 * PI))
      with (exp_neg_poly 3 (t ^ 2 / 2) * / sqrt (2 * PI) + cdf_poly 7 t * 0) by ring.
    apply (derivable_pt_lim_mult (cdf_poly 7) (fun _ => / sqrt (2 * PI))).
    + apply cdf_poly_7_derivable.
    + apply derivable_pt_lim_const.
  - rewrite std_cdf_0, cdf_poly_0. ring.
  - intros t Ht. rewrite std_pdf_eq.
    assert (Hu : 0 <= t ^ 2 / 2) by (generalize (pow2_ge_0 t); lra).
    generalize (exp_neg_lower 1 (t ^ 2 / 2) Hu). simpl Nat.mul. intros He.
    assert (0 <= (exp (- (t ^ 2 / 2)) - exp_neg_poly 3 (t ^ 2 / 2)) * / sqrt (2 * PI)).
    { apply Rmult_le_pos; lra. }
    lra.
  - exact Hx.
Qed.

Lemma std_cdf_upper (x : R) :
  0 <= x -> norm.std_cdf x <= 1 / 2 + cdf_poly 9 x * / sqrt (2 * PI).
Proof.
  intros Hx.
  assert (Hw : 0 < / sqrt (2 * PI)) by (apply Rinv_0_lt_compat, sqrt_2PI_pos).
  assert (H : 0 <= (1 / 2 + cdf_poly 9 x * / sqrt (2 * PI)) - norm.std_cdf x); [| lra].
  apply (nonneg_from_derivative
           (fun t => (1 / 2 + cdf_poly 9 t * / sqrt (2 * PI)) - norm.std_cdf t)
           (fun t => (0 + exp_neg_poly 4 (t ^ 2 / 2) * / sqrt (2 * PI))
                     - norm.std_pdf t)).
  - intro t. apply derivable_pt_lim_minus; [| apply std_cdf_derivable_pt_lim].
    apply derivable_pt_lim_plus; [apply derivable_pt_lim_const |].
    replace (exp_neg_poly 4 (t ^ 2 / 2) * / sqrt (2 * PI))
      with (exp_neg_poly 4 (t ^ 2 / 2) * / sqrt (2 * PI) + cdf_poly 9 t * 0) by ring.
    apply (derivable_pt_lim_mult (cdf_poly 9) (fun _ => / sqrt (2 * PI))).
    + apply cdf_poly_9_derivable.
    + apply derivable_pt_lim_const.
  - rewrite std_cdf_0, cdf_poly_0. ring.
  - intros t Ht. rewrite std_pdf_eq.
    assert (Hu : 0 <= t ^ 2 / 2) by (generalize (pow2_ge_0 t); lra).
    generalize (exp_neg_upper 2 (t ^ 2 / 2) Hu). simpl Nat.mul. intros He.
    assert (0 <= (exp_neg_poly 4 (t ^ 2 / 2) - exp (- (t ^ 2 / 2))) * / sqrt (2 * PI)).
    { apply Rmult_le_pos; lra. }
    lra.
  - exact Hx.
Qed.

Lemma cdf_poly_7 (x : R) :
  cdf_poly 7 x = x - x ^ 3 / 6 + x ^ 5 / 40 - x ^ 7 / 336.
Proof. unfold cdf_poly. cbn [sum_f_R0 cdf_poly_coeff]. field. Qed.

Lemma cdf_poly_9 (x : R) :
  cdf_poly 9 x = x - x ^ 3 / 6 + x ^ 5 / 40 - x ^ 7 / 336 + x ^ 9 / 3456.
Proof. unfold cdf_poly. cbn [sum_f_R0 cdf_poly_coeff]. field. Qed.

(** ** Enclosures at the notebook's example *)

Lemma ref_sqrt_T_bounds :
  70710678 / 100000000 <= sqrt (1 / 2) <= 70710679 / 100000000.
Proof. apply sqrt_bracket; lra. Qed.

Lemma ref_log_bounds :
  4082199 / 100000000 <= ln (50 / 48) <= 4082200 / 100000000.
Proof.
  assert (He : exp (- ln (50 / 48)) = 48 / 50).
  { rewrite exp_Ropp, exp_ln by lra. field. }
  split.
  - apply Ropp_le_cancel, exp_le_inv. rewrite He.
    apply Rle_trans with (exp_neg_poly 5 (4082199 / 100000000)).
    + rewrite exp_neg_poly_5. lra.
    + apply (exp_neg_lower 2). lra.
  - apply Ropp_le_cancel, exp_le_inv. rewrite He.
    apply Rle_trans with (exp_neg_poly 4 (4082200 / 100000000)).
    + apply (exp_neg_upper 2). lra.
    + rewrite exp_neg_poly_4. lra.
Qed.

Lemma ref_d1_bounds :
  33878189 / 100000000 <= ref_d1 <= 33878194 / 100000000.
Proof.
  destruct ref_sqrt_T_bounds as [Hs1 Hs2].
  destruct ref_log_bounds as [Hl1 Hl2].
  assert (Hd : ref_d1 * (4 / 10 * sqrt (1 / 2)) = ln (50 / 48) + 55 / 1000).
  { unfold ref_d1, Spec.d1. field. lra. }
  assert (Hpos : 0 < 4 / 10 * sqrt (1 / 2)) by lra.
  split.
  - apply Rmult_le_reg_r with (4 / 10 * sqrt (1 / 2)); [exact Hpos |].
    rewrite Hd. lra.
  - apply Rmult_le_reg_r with (4 / 10 * sqrt (1 / 2)); [exact Hpos |].
    rewrite Hd. lra.
Qed.

Lemma ref_d2_bounds :
  5593917 / 100000000 <= ref_d2 <= 5593923 / 100000000.
Proof.
  destruct ref_sqrt_T_bounds as [Hs1 Hs2].
  destruct ref_d1_bounds as [Hd1 Hd2].
  unfold ref_d2, Spec.d2. fold ref_d1. lra.
Qed.

(** Enclosure of N at a point enclosed by two non-negative numbers. *)
Lemma std_cdf_bracket (x lo hi : R) :
  0 <= lo -> lo <= x <= hi ->
  0 <= cdf_poly 7 lo -> 0 <= cdf_poly 9 hi ->
  1 / 2 + cdf_poly 7 lo * (39894227 / 100000000) <= norm.std_cdf x
  <= 1 / 2 + cdf_poly 9 hi * (39894229 / 100000000).
Proof.
  intros Hlo [H1 H2] Hp7 Hp9.
  destruct inv_sqrt_2PI_bounds as [Hw1 Hw2].
  assert (Hhi : 0 <= hi) by lra.
  generalize (std_cdf_lower lo Hlo) (std_cdf_upper hi Hhi).
  generalize (std_cdf_increasing lo x H1) (std_cdf_increasing x hi H2).
  intros Hm1 Hm2 Hb1 Hb2.
  generalize (Rmult_le_compat_l _ _ _ Hp7 Hw1) (Rmult_le_compat_l _ _ _ Hp9 Hw2).
  lra.
Qed.

Lemma ref_N_d1_bounds :
  63261296 / 100000000 <= Spec.N ref_d1 <= 63261300 / 100000000.
Proof.
  destruct (std_cdf_bracket ref_d1 (33878189 / 100000000) (33878194 / 100000000))
    as [H1 H2].
  - lra.
  - apply ref_d1_bounds.
  - rewrite cdf_poly_7. lra.
  - rewrite cdf_poly_9. lra.
  - rewrite cdf_poly_7 in H1. rewrite cdf_poly_9 in H2. unfold Spec.N. lra.
Qed.

Lemma ref_N_d2_bounds :
  52230486 / 100000000 <= Spec.N ref_d2 <= 52230490 / 100000000.
Proof.
  destruct (std_cdf_bracket ref_d2 (5593917 / 100000000) (5593923 / 100000000))
    as [H1 H2].
  - lra.
  - apply ref_d2_bounds.
  - rewrite cdf_poly_7. lra.
  - rewrite cdf_poly_9. lra.
  - rewrite cdf_poly_7 in H1. rewrite cdf_poly_9 in H2. unfold Spec.N. lra.
Qed.

(** Enclosure of exp(-u) for u >= 0. *)
Lemma exp_neg_bracket (u : R) :
  0 <= u -> exp_neg_poly 3 u <= exp (- u) <= exp_neg_poly 4 u.
Proof.
  intros Hu. split; [apply (exp_neg_lower 1) | apply (exp_neg_upper 2)]; exact Hu.
Qed.

Lemma ref_exp_qT_bounds :
  990049833 / 1000000000 <= exp (- (2 / 100) * (1 / 2)) <= 990049834 / 1000000000.
Proof.
  replace (- (2 / 100) * (1 / 2)) with (- (1 / 100)) by lra.
  destruct (exp_neg_bracket (1 / 100)) as [H1 H2]; [lra |].
  rewrite exp_neg_poly_3 in H1. rewrite exp_neg_poly_4 in H2. lra.
Qed.

Lemma ref_exp_rT_bounds :
  975309895 / 1000000000 <= exp (- (5 / 100) * (1 / 2)) <= 975309913 / 1000000000.
Proof.
  replace (- (5 / 100) * (1 / 2)) with (- (25 / 1000)) by lra.
  destruct (exp_neg_bracket (25 / 1000)) as [H1 H2]; [lra |].
  rewrite exp_neg_poly_3 in H1. rewrite exp_neg_poly_4 in H2. lra.
Qed.

Lemma ref_pdf_d1_bounds :
  37669266 / 100000000 <= Spec.N' ref_d1 <= 37669288 / 100000000.
Proof.
  destruct ref_d1_bounds as [Hd1 Hd2].
  destruct inv_sqrt_2PI_bounds as [Hw1 Hw2].
  unfold Spec.N'. rewrite std_pdf_eq.
  assert (Hsq1 : (33878189 / 100000000) ^ 2 / 2 <= ref_d1 ^ 2 / 2) by nra.
  assert (Hsq2 : ref_d1 ^ 2 / 2 <= (33878194 / 100000000) ^ 2 / 2) by nra.
  assert (He1 : 94422851 / 100000000 <= exp (- (ref_d1 ^ 2 / 2))).
  { apply Rle_trans with (exp (- ((33878194 / 100000000) ^ 2 / 2))).
    - destruct (exp_neg_bracket ((33878194 / 100000000) ^ 2 / 2)) as [H1 _]; [lra |].
      rewrite exp_neg_poly_3 in H1. lra.
    - apply exp_le_mono. lra. }
  assert (He2 : exp (- (ref_d1 ^ 2 / 2)) <= 94422898 / 100000000).
  { apply Rle_trans with (exp (- ((33878189 / 100000000) ^ 2 / 2))).
    - apply exp_le_mono. lra.
    - destruct (exp_neg_bracket ((33878189 / 100000000) ^ 2 / 2)) as [_ H2]; [lra |].
      rewrite exp_neg_poly_4 in H2. lra. }
  split.
  - apply Rle_trans with (94422851 / 100000000 * (39894227 / 100000000)); [lra |].
    apply Rmult_le_compat; lra.
  - apply Rle_trans with (94422898 / 100000000 * (39894229 / 100000000)); [| lra].
    apply Rmult_le_compat; lra.
Qed.

Lemma ref_call_lines :
  call_lines (5/100) 50 48 (1/2) (4/10) (2/100)
  = [ Field "Call Option Price: "
        (50 * exp (- (2/100) * (1/2)) * Spec.N ref_d1
         - 48 * exp (- (5/100) * (1/2)) * Spec.N ref_d2);
      Text "-----------------";
      Field "Call Delta: " (Spec.N ref_d1);
      Field "Gamma: " (Spec.N' ref_d1 / (50 * (4/10) * sqrt (1/2)));
      Field "Vega: " ((50 * Spec.N' ref_d1 * sqrt (1/2)) * (1 / 100));
      Field "Call Theta: "
        ((- 50 * Spec.N' ref_d1 * (4/10) / (2 * sqrt (1/2))
          + (2/100) * 50 * Spec.N ref_d1
          - (5/100) * 48 * exp (- (5/100) * (1/2)) * Spec.N ref_d2) / 252);
      Field "Call Rho: "
        ((48 * (1/2) * exp (- (5/100) * (1/2)) * Spec.N ref_d2) * (1 / 100)) ].
Proof.
  unfold call_lines. cbv zeta. rewrite !cdf_0_1, !pdf_0_1. reflexivity.
Qed.

(** Products of the enclosed quantities. *)
Lemma ref_products :
  62631835 / 100000000 <= exp (- (2/100) * (1/2)) * Spec.N ref_d1 <= 62631840 / 100000000 /\
  50940909 / 100000000 <= exp (- (5/100) * (1/2)) * Spec.N ref_d2 <= 50940915 / 100000000 /\
  26636193 / 100000000 <= Spec.N' ref_d1 * sqrt (1/2) <= 26636210 / 100000000.
Proof.
  destruct ref_exp_qT_bounds as [Ha1 Ha2]. destruct ref_exp_rT_bounds as [Hb1 Hb2].
  destruct ref_N_d1_bounds as [Hn1 Hn1']. destruct ref_N_d2_bounds as [Hn2 Hn2'].
  destruct ref_pdf_d1_bounds as [Hp1 Hp2]. destruct ref_sqrt_T_bounds as [Hs1 Hs2].
  repeat split.
  - apply Rle_trans with (990049833 / 1000000000 * (63261296 / 100000000)); [lra |].
    apply Rmult_le_compat; lra.
  - apply Rle_trans with (990049834 / 1000000000 * (63261300 / 100000000)); [| lra].
    apply Rmult_le_compat; lra.
  - apply Rle_trans with (975309895 / 1000000000 * (52230486 / 100000000)); [lra |].
    apply Rmult_le_compat; lra.
  - apply Rle_trans with (975309913 / 1000000000 * (52230490 / 100000000)); [| lra].
    apply Rmult_le_compat; lra.
  - apply Rle_trans with (37669266 / 100000000 * (70710678 / 100000000)); [lra |].
    apply Rmult_le_compat; lra.
  - apply Rle_trans with (37669288 / 100000000 * (70710679 / 100000000)); [| lra].
    apply Rmult_le_compat; lra.
Qed.

(** 1 / sqrt(1/2) = 2 sqrt(1/2). *)
Lemma inv_sqrt_half : / sqrt (1/2) = 2 * sqrt (1/2).
Proof.
  assert (Hs : sqrt (1/2) * sqrt (1/2) = 1/2) by (apply sqrt_sqrt; lra).
  assert (Hp : 0 < sqrt (1/2)) by (apply sqrt_lt_R0; lra).
  apply Rmult_eq_reg_l with (sqrt (1/2)); [| lra].
  rewrite Rinv_r by lra. lra.
Qed.


Lemma ref_put_lines :
  put_lines (5/100) 50 48 (1/2) (4/10) (2/100)
  = [ Field "Put Option Price: "
        (48 * exp (- (5/100) * (1/2)) * Spec.N (- ref_d2)
         - 50 * exp (- (2/100) * (1/2)) * Spec.N (- ref_d1));
      Text "-----------------";
      Field "Put Delta: " (- Spec.N (- ref_d1));
      Field "Gamma: " (Spec.N' ref_d1 / (50 * (4/10) * sqrt (1/2)));
      Field "Vega: " ((50 * Spec.N' ref_d1 * sqrt (1/2)) * (1 / 100));
      Field "Put Theta: "
        ((- 50 * Spec.N' ref_d1 * (4/10) / (2 * sqrt (1/2))
          - (2/100) * 50 * Spec.N (- ref_d1)
          + (5/100) * 48 * exp (- (5/100) * (1/2)) * Spec.N (- ref_d2)) / 252);
      Field "Put Rho: "
        ((- 48 * (1/2) * exp (- (5/100) * (1/2)) * Spec.N (- ref_d2)) * (1 / 100)) ].
Proof.
  unfold put_lines. cbv zeta. rewrite !cdf_0_1, !pdf_0_1. reflexivity.
Qed.

(** With sqrt T = sqrt(1/2), the divisions by sqrt T become products. *)
Lemma ref_gamma_vega_forms :
  Spec.N' ref_d1 / (50 * (4/10) * sqrt (1/2)) = Spec.N' ref_d1 * sqrt (1/2) / 10 /\
  - 50 * Spec.N' ref_d1 * (4/10) / (2 * sqrt (1/2)) = - 20 * (Spec.N' ref_d1 * sqrt (1/2)).
Proof.
  generalize inv_sqrt_half. set (s := sqrt (1/2)). intros Hs.
  split; unfold Rdiv; rewrite !Rinv_mult, Hs; field.
Qed.


(** * The claims *)

(** ** C1: price *)

(** C1: for S > 0, K > 0, T > 0 and sigma > 0 the call with option type "C"
    completes and the number it prints as the price is
    S e^(-qT) N(d1) - K e^(-rT) N(d2); with option type "P" it is
    K e^(-rT) N(-d2) - S e^(-qT) N(-d1); d1 and d2 are those of the
    specification and N is the standard normal distribution function. *)
Theorem C1_price_formulas (r S K T sigma q : R) :
  0 < S -> 0 < K -> 0 < T -> 0 < sigma ->
  (snd (run (BlackScholes r S K T sigma "C" q)) = inr tt /\
   printed "Call Option Price: " (fst (run (BlackScholes r S K T sigma "C" q)))
   = Some (Spec.call_price r S K T sigma q)) /\
  (snd (run (BlackScholes r S K T sigma "P" q)) = inr tt /\
   printed "Put Option Price: " (fst (run (BlackScholes r S K T sigma "P" q)))
   = Some (Spec.put_price r S K T sigma q)).
Proof.
  intros HS HK HT Hs.
  assert (HK0 : K <> 0) by lra.
  unfold run. rewrite (BlackScholes_C r S K T sigma q [] HK0).
  rewrite (BlackScholes_P r S K T sigma q [] HK0).
  simpl. rewrite !cdf_0_1.
  unfold Spec.call_price, Spec.put_price, Spec.d2, Spec.d1, np.exp, np.log, np.sqrt.
  repeat split; reflexivity.
Qed.

Lemma C1_price_formulas_witness :
  (snd (run (BlackScholes (5/100) 50 48 (1/2) (4/10) "C" (2/100))) = inr tt /\
   printed "Call Option Price: "
     (fst (run (BlackScholes (5/100) 50 48 (1/2) (4/10) "C" (2/100))))
   = Some (Spec.call_price (5/100) 50 48 (1/2) (4/10) (2/100))) /\
  (snd (run (BlackScholes (5/100) 50 48 (1/2) (4/10) "P" (2/100))) = inr tt /\
   printed "Put Option Price: "
     (fst (run (BlackScholes (5/100) 50 48 (1/2) (4/10) "P" (2/100))))
   = Some (Spec.put_price (5/100) 50 48 (1/2) (4/10) (2/100))).
Proof. apply (C1_price_formulas (5/100) 50 48 (1/2) (4/10) (2/100)); lra. Defined.

(** ** C2: validation *)

(** C2, as stated, fails: with timeToExpiry = 0 the call reports no error; it
    divides by sigma * sqrt T, prints its seven lines and returns. *)
Lemma C2_no_InvalidInput_at_T0 :
  (0 : R) <= 0 /\
  snd (run (BlackScholes (5/100) 50 48 0 (4/10) "C" (2/100))) = inr tt /\
  length (fst (run (BlackScholes (5/100) 50 48 0 (4/10) "C" (2/100)))) = 7%nat /\
  ~ reports_error (run (BlackScholes (5/100) 50 48 0 (4/10) "C" (2/100))).
Proof.
  run_BlackScholes. simpl app.
  split; [lra |]. split; [reflexivity |]. split; [reflexivity |].
  apply call_lines_no_error.
Qed.

(** C2, amended: the function validates nothing.  For every input with
    strikePrice <> 0 and option type "C" or "P", also when timeToExpiry <= 0,
    volatility <= 0, spotPrice <= 0 or strikePrice < 0, the call reports no
    error: d1 is computed first and the seven result lines are printed. *)
Theorem C2_no_validation (r S K T sigma q : R) :
  T <= 0 \/ sigma <= 0 \/ S <= 0 \/ K < 0 ->
  K <> 0 ->
  (run (BlackScholes r S K T sigma "C" q) = (call_lines r S K T sigma q, inr tt) /\
   ~ reports_error (run (BlackScholes r S K T sigma "C" q))) /\
  (run (BlackScholes r S K T sigma "P" q) = (put_lines r S K T sigma q, inr tt) /\
   ~ reports_error (run (BlackScholes r S K T sigma "P" q))).
Proof.
  intros _ HK. unfold run.
  rewrite (BlackScholes_C r S K T sigma q [] HK).
  rewrite (BlackScholes_P r S K T sigma q [] HK). simpl app.
  repeat split.
  - apply call_lines_no_error.
  - apply put_lines_no_error.
Qed.

Lemma C2_no_validation_witness :
  (run (BlackScholes (5/100) 50 (-5) (1/2) (4/10) "C" (2/100))
   = (call_lines (5/100) 50 (-5) (1/2) (4/10) (2/100), inr tt) /\
   ~ reports_error (run (BlackScholes (5/100) 50 (-5) (1/2) (4/10) "C" (2/100)))) /\
  (run (BlackScholes (5/100) 50 (-5) (1/2) (4/10) "P" (2/100))
   = (put_lines (5/100) 50 (-5) (1/2) (4/10) (2/100), inr tt) /\
   ~ reports_error (run (BlackScholes (5/100) 50 (-5) (1/2) (4/10) "P" (2/100)))).
Proof.
  apply (C2_no_validation (5/100) 50 (-5) (1/2) (4/10) (2/100)).
  - right. right. right. lra.
  - lra.
Defined.

(** ** C3, C4, C5: the Greeks and the dividend factor *)

(** C3: the notebook's first cell and the specification give
    Delta = e^(-qT) N(d1) for a Call and -e^(-qT) N(-d1) for a Put.  The code
    prints N(d1) and -N(-d1): at the notebook's example (q = 0.02, T = 0.5) the
    printed values differ from the documented ones by more than 0.003. *)
Theorem C3_delta_without_dividend_factor :
  printed "Call Delta: "
    (fst (run (BlackScholes (5/100) 50 48 (1/2) (4/10) "C" (2/100))))
  = Some (Spec.N ref_d1) /\
  Spec.N ref_d1 - Spec.call_delta (5/100) 50 48 (1/2) (4/10) (2/100) > 3 / 1000 /\
  printed "Put Delta: "
    (fst (run (BlackScholes (5/100) 50 48 (1/2) (4/10) "P" (2/100))))
  = Some (- Spec.N (- ref_d1)) /\
  Spec.put_delta (5/100) 50 48 (1/2) (4/10) (2/100) - - Spec.N (- ref_d1) > 3 / 1000.
Proof.
  run_BlackScholes. rewrite ref_call_lines, ref_put_lines.
  destruct ref_products as [[Ha1 Ha2] _].
  destruct ref_N_d1_bounds as [Hn1 Hn2].
  destruct ref_exp_qT_bounds as [He1 He2].
  unfold Spec.call_delta, Spec.put_delta. fold ref_d1.
  unfold Spec.N in *. rewrite (std_cdf_opp ref_d1).
  repeat split; try reflexivity.
  - set (an := exp (- (2/100) * (1/2)) * norm.std_cdf ref_d1) in *. lra.
  - set (a := exp (- (2/100) * (1/2))) in *.
    set (n := norm.std_cdf ref_d1) in *.
    replace (- a * (1 - n) - - (1 - n)) with ((1 - a) + a * n - n) by ring.
    lra.
Qed.

(** C4: the notebook's first cell and the specification give
    Gamma = e^(-qT) N'(d1) / (S sigma sqrt T) and
    Vega = 0.01 S e^(-qT) N'(d1) sqrt T.  The code leaves e^(-qT) out of both:
    at the notebook's example the printed Gamma and Vega exceed the documented
    ones.  Both printed values are the same for "C" and "P". *)
Theorem C4_gamma_vega_without_dividend_factor :
  printed "Gamma: " (fst (run (BlackScholes (5/100) 50 48 (1/2) (4/10) "C" (2/100))))
  = Some (Spec.N' ref_d1 / (50 * (4/10) * sqrt (1/2))) /\
  printed "Vega: " (fst (run (BlackScholes (5/100) 50 48 (1/2) (4/10) "C" (2/100))))
  = Some ((50 * Spec.N' ref_d1 * sqrt (1/2)) * (1 / 100)) /\
  Spec.N' ref_d1 / (50 * (4/10) * sqrt (1/2))
  - Spec.gamma (5/100) 50 48 (1/2) (4/10) (2/100) > 2 / 10000 /\
  (50 * Spec.N' ref_d1 * sqrt (1/2)) * (1 / 100)
  - Spec.vega (5/100) 50 48 (1/2) (4/10) (2/100) > 1 / 1000 /\
  printed "Gamma: " (fst (run (BlackScholes (5/100) 50 48 (1/2) (4/10) "P" (2/100))))
  = printed "Gamma: " (fst (run (BlackScholes (5/100) 50 48 (1/2) (4/10) "C" (2/100)))) /\
  printed "Vega: " (fst (run (BlackScholes (5/100) 50 48 (1/2) (4/10) "P" (2/100))))
  = printed "Vega: " (fst (run (BlackScholes (5/100) 50 48 (1/2) (4/10) "C" (2/100)))).
Proof.
  run_BlackScholes. rewrite ref_call_lines, ref_put_lines.
  destruct ref_products as [_ [_ [Hz1 Hz2]]].
  destruct ref_exp_qT_bounds as [He1 He2].
  destruct ref_gamma_vega_forms as [Hg _].
  assert (Hsg : Spec.gamma (5/100) 50 48 (1/2) (4/10) (2/100)
                = exp (- (2/100) * (1/2)) * (Spec.N' ref_d1 * sqrt (1/2)) / 10).
  { unfold Spec.gamma. fold ref_d1.
    replace (exp (- (2/100) * (1/2)) * Spec.N' ref_d1 / (50 * (4/10) * sqrt (1/2)))
      with (exp (- (2/100) * (1/2)) * (Spec.N' ref_d1 / (50 * (4/10) * sqrt (1/2)))).
    - rewrite Hg. field.
    - unfold Rdiv. ring. }
  assert (Hsv : Spec.vega (5/100) 50 48 (1/2) (4/10) (2/100)
                = exp (- (2/100) * (1/2)) * (Spec.N' ref_d1 * sqrt (1/2)) / 2).
  { unfold Spec.vega. fold ref_d1. field. }
  rewrite Hsg, Hsv, Hg.
  set (a := exp (- (2/100) * (1/2))) in *.
  set (z := Spec.N' ref_d1 * sqrt (1/2)) in *.
  assert (Haz : a * z <= 990049834 / 1000000000 * (26636210 / 100000000)).
  { apply Rmult_le_compat; lra. }
  repeat split; try reflexivity.
  - lra.
  - replace (50 * Spec.N' ref_d1 * sqrt (1/2) * (1 / 100)) with (z / 2)
      by (unfold z; field).
    lra.
Qed.

(** C5: the notebook's first cell and the specification give, for a Call,
    Theta = (1/252) (-S e^(-qT) N'(d1) sigma / (2 sqrt T) + q S e^(-qT) N(d1)
                     - r K e^(-rT) N(d2)),
    and the matching formula for a Put.  The code leaves e^(-qT) out of the
    first two terms: at the notebook's example the printed Theta is lower than
    the documented one by more than 0.0001, for "C" and for "P". *)
Theorem C5_theta_without_dividend_factor :
  exists theta_call theta_put : R,
    printed "Call Theta: "
      (fst (run (BlackScholes (5/100) 50 48 (1/2) (4/10) "C" (2/100)))) = Some theta_call /\
    printed "Put Theta: "
      (fst (run (BlackScholes (5/100) 50 48 (1/2) (4/10) "P" (2/100)))) = Some theta_put /\
    Spec.call_theta (5/100) 50 48 (1/2) (4/10) (2/100) - theta_call > 1 / 10000 /\
    Spec.put_theta (5/100) 50 48 (1/2) (4/10) (2/100) - theta_put > 1 / 10000.
Proof.
  run_BlackScholes. rewrite ref_call_lines, ref_put_lines.
  do 2 eexists. split; [reflexivity |]. split; [reflexivity |].
  destruct ref_products as [[Ha1 Ha2] [[Hb1 Hb2] [Hz1 Hz2]]].
  destruct ref_N_d1_bounds as [Hn1 Hn2].
  destruct ref_exp_qT_bounds as [He1 He2].
  destruct ref_gamma_vega_forms as [_ Ht].
  unfold Spec.call_theta, Spec.put_theta. fold ref_d2. fold ref_d1.
  replace (- (50) * exp (- (2/100) * (1/2)) * Spec.N' ref_d1 * (4/10) / (2 * sqrt (1/2)))
    with (exp (- (2/100) * (1/2))
          * (- 50 * Spec.N' ref_d1 * (4/10) / (2 * sqrt (1/2))))
    by (unfold Rdiv; ring).
  rewrite Ht.
  unfold Spec.N in *. rewrite !std_cdf_opp.
  set (a := exp (- (2/100) * (1/2))) in *.
  set (b := exp (- (5/100) * (1/2))) in *.
  set (n1 := norm.std_cdf ref_d1) in *.
  set (n2 := norm.std_cdf ref_d2) in *.
  set (z := Spec.N' ref_d1 * sqrt (1/2)) in *.
  assert (Haz : a * z <= 990049834 / 1000000000 * (26636210 / 100000000)).
  { apply Rmult_le_compat; lra. }
  split.
  - replace (2/100 * 50 * a * n1) with (a * n1) by field.
    lra.
  - replace (2/100 * 50 * a * (1 - n1)) with (a - a * n1) by field.
    lra.
Qed.
(** ** C6, C7: errors and effects *)

(** C6, as stated, fails: with option type "X" no error reaches the caller.
    The ValueError is caught by the function's own handler, its message is
    printed and the call returns None as a successful call does. *)
Lemma C6_error_not_signalled :
  run (BlackScholes (5/100) 50 48 (1/2) (4/10) "X" (2/100))
  = ([Text invalid_option_type_msg], inr tt) /\
  ~ signals_error (run (BlackScholes (5/100) 50 48 (1/2) (4/10) "X" (2/100))).
Proof.
  assert (H : run (BlackScholes (5/100) 50 48 (1/2) (4/10) "X" (2/100))
              = ([Text invalid_option_type_msg], inr tt)).
  { unfold run. rewrite BlackScholes_other; [reflexivity | lra | discriminate | discriminate]. }
  split; [exact H |]. rewrite H. intros [e He]. discriminate He.
Qed.

(** C6, amended: for every input whose option type is neither "C" nor "P"
    (strikePrice <> 0) the function catches its own ValueError, prints the
    message as its only line and returns None; no result line is printed.
    And whatever the option type and the strike, a call prints all seven
    result lines, or only that message, or nothing (when the strike is 0 and
    ZeroDivisionError leaves the call). *)
Theorem C6_invalid_type_printed (r S K T sigma : R) (option_type : string) (q : R)
    (out : stdout) :
  K <> 0 ->
  option_type <> "C"%string -> option_type <> "P"%string ->
  BlackScholes r S K T sigma option_type q out
  = (out ++ [Text invalid_option_type_msg], inr tt) /\
  forall (o : string) (K' : R),
    BlackScholes r S K' T sigma o q out = (out ++ call_lines r S K' T sigma q, inr tt) \/
    BlackScholes r S K' T sigma o q out = (out ++ put_lines r S K' T sigma q, inr tt) \/
    BlackScholes r S K' T sigma o q out = (out ++ [Text invalid_option_type_msg], inr tt) \/
    BlackScholes r S K' T sigma o q out
    = (out, inl ZeroDivisionError).
Proof.
  intros HK HC HP. split.
  - apply BlackScholes_other; assumption.
  - intros o K'.
    destruct (Req_dec_T K' 0) as [HK0 | HK0].
    { right. right. right. apply BlackScholes_K0, HK0. }
    destruct (string_dec o "C") as [-> | HoC].
    { left. apply BlackScholes_C, HK0. }
    destruct (string_dec o "P") as [-> | HoP].
    { right. left. apply BlackScholes_P, HK0. }
    right. right. left. apply BlackScholes_other; assumption.
Qed.

Lemma C6_invalid_type_printed_witness :
  BlackScholes (5/100) 50 48 (1/2) (4/10) "X" (2/100) []
  = ([] ++ [Text invalid_option_type_msg], inr tt) /\
  forall (o : string) (K' : R),
    BlackScholes (5/100) 50 K' (1/2) (4/10) o (2/100) []
    = ([] ++ call_lines (5/100) 50 K' (1/2) (4/10) (2/100), inr tt) \/
    BlackScholes (5/100) 50 K' (1/2) (4/10) o (2/100) []
    = ([] ++ put_lines (5/100) 50 K' (1/2) (4/10) (2/100), inr tt) \/
    BlackScholes (5/100) 50 K' (1/2) (4/10) o (2/100) []
    = ([] ++ [Text invalid_option_type_msg], inr tt) \/
    BlackScholes (5/100) 50 K' (1/2) (4/10) o (2/100) []
    = ([], inl ZeroDivisionError).
Proof.
  apply (C6_invalid_type_printed (5/100) 50 48 (1/2) (4/10) "X" (2/100) []).
  - lra.
  - discriminate.
  - discriminate.
Defined.

(** C7, as stated, fails: at the notebook's own input the call writes seven
    lines to standard output and returns None, not a result value. *)
Lemma C7_prints_at_reference_input :
  run (BlackScholes (5/100) 50 48 (1/2) (4/10) "C" (2/100))
  = (call_lines (5/100) 50 48 (1/2) (4/10) (2/100), inr tt) /\
  fst (run (BlackScholes (5/100) 50 48 (1/2) (4/10) "C" (2/100))) <> [] /\
  length (fst (run (BlackScholes (5/100) 50 48 (1/2) (4/10) "C" (2/100)))) = 7%nat.
Proof.
  run_BlackScholes. simpl app.
  split; [reflexivity |]. split; [discriminate | reflexivity].
Qed.

(** C7, amended: for every valid input (option type "C" or "P") the function
    returns None and its one effect is to append seven lines to standard
    output: the price, a rule, delta, gamma, vega, theta and rho, in that
    order; what was printed before is left as it was. *)
Theorem C7_prints_seven_lines (r S K T sigma q : R) (out : stdout) :
  0 < S -> 0 < K -> 0 < T -> 0 < sigma ->
  (exists price delta gamma vega theta rho : R,
     BlackScholes r S K T sigma "C" q out
     = (out ++ [ Field "Call Option Price: " price; Text "-----------------";
                 Field "Call Delta: " delta; Field "Gamma: " gamma;
                 Field "Vega: " vega; Field "Call Theta: " theta;
                 Field "Call Rho: " rho ], inr tt)) /\
  (exists price delta gamma vega theta rho : R,
     BlackScholes r S K T sigma "P" q out
     = (out ++ [ Field "Put Option Price: " price; Text "-----------------";
                 Field "Put Delta: " delta; Field "Gamma: " gamma;
                 Field "Vega: " vega; Field "Put Theta: " theta;
                 Field "Put Rho: " rho ], inr tt)).
Proof.
  intros HS HK HT Hs.
  assert (HK0 : K <> 0) by lra.
  rewrite (BlackScholes_C r S K T sigma q out HK0).
  rewrite (BlackScholes_P r S K T sigma q out HK0).
  split; do 6 eexists; reflexivity.
Qed.

Lemma C7_prints_seven_lines_witness :
  (exists price delta gamma vega theta rho : R,
     BlackScholes (5/100) 50 48 (1/2) (4/10) "C" (2/100) []
     = ([] ++ [ Field "Call Option Price: " price; Text "-----------------";
                Field "Call Delta: " delta; Field "Gamma: " gamma;
                Field "Vega: " vega; Field "Call Theta: " theta;
                Field "Call Rho: " rho ], inr tt)) /\
  (exists price delta gamma vega theta rho : R,
     BlackScholes (5/100) 50 48 (1/2) (4/10) "P" (2/100) []
     = ([] ++ [ Field "Put Option Price: " price; Text "-----------------";
                Field "Put Delta: " delta; Field "Gamma: " gamma;
                Field "Vega: " vega; Field "Put Theta: " theta;
                Field "Put Rho: " rho ], inr tt)).
Proof. apply (C7_prints_seven_lines (5/100) 50 48 (1/2) (4/10) (2/100) []); lra. Defined.

(** ** C8: put-call parity *)

(** C8: put-call parity.  For S > 0, K > 0, T > 0, sigma > 0 and any r and q,
    the price printed for "C" minus the price printed for "P" from the same
    parameters is S e^(-qT) - K e^(-rT). *)
Theorem C8_put_call_parity (r S K T sigma q : R) :
  0 < S -> 0 < K -> 0 < T -> 0 < sigma ->
  exists callPrice putPrice : R,
    printed "Call Option Price: " (fst (run (BlackScholes r S K T sigma "C" q)))
    = Some callPrice /\
    printed "Put Option Price: " (fst (run (BlackScholes r S K T sigma "P" q)))
    = Some putPrice /\
    callPrice - putPrice = S * exp (- q * T) - K * exp (- r * T).
Proof.
  intros HS HK HT Hs.
  assert (HK0 : K <> 0) by lra.
  unfold run. rewrite (BlackScholes_C r S K T sigma q [] HK0).
  rewrite (BlackScholes_P r S K T sigma q [] HK0).
  simpl. do 2 eexists. split; [reflexivity |]. split; [reflexivity |].
  rewrite !cdf_0_1. unfold Spec.N, np.exp.
  rewrite !std_cdf_opp. ring.
Qed.

Lemma C8_put_call_parity_witness :
  exists callPrice putPrice : R,
    printed "Call Option Price: "
      (fst (run (BlackScholes (5/100) 50 48 (1/2) (4/10) "C" (2/100)))) = Some callPrice /\
    printed "Put Option Price: "
      (fst (run (BlackScholes (5/100) 50 48 (1/2) (4/10) "P" (2/100)))) = Some putPrice /\
    callPrice - putPrice = 50 * exp (- (2/100) * (1/2)) - 48 * exp (- (5/100) * (1/2)).
Proof. apply (C8_put_call_parity (5/100) 50 48 (1/2) (4/10) (2/100)); lra. Defined.

(** ** C9: the notebook's example *)

(** C9: the notebook's example, r = 0.05, S = 50, K = 48, T = 0.5,
    sigma = 0.4, option type "C", q = 0.02, prints price, delta, gamma, vega,
    theta and rho within 0.0001 of 6.86428, 0.63261, 0.02664, 0.13318,
    -0.02348 and 0.12226. *)
Theorem C9_reference_scenario :
  exists price delta gamma vega theta rho : R,
    run (BlackScholes (5/100) 50 48 (1/2) (4/10) "C" (2/100))
    = ([ Field "Call Option Price: " price; Text "-----------------";
         Field "Call Delta: " delta; Field "Gamma: " gamma;
         Field "Vega: " vega; Field "Call Theta: " theta;
         Field "Call Rho: " rho ], inr tt) /\
    Rabs (price - 686428 / 100000) <= 1 / 10000 /\
    Rabs (delta - 63261 / 100000) <= 1 / 10000 /\
    Rabs (gamma - 2664 / 100000) <= 1 / 10000 /\
    Rabs (vega - 13318 / 100000) <= 1 / 10000 /\
    Rabs (theta - - (2348 / 100000)) <= 1 / 10000 /\
    Rabs (rho - 12226 / 100000) <= 1 / 10000.
Proof.
  run_BlackScholes. rewrite ref_call_lines.
  do 6 eexists. split; [reflexivity |].
  destruct ref_products as [[Ha1 Ha2] [[Hb1 Hb2] [Hz1 Hz2]]].
  destruct ref_N_d1_bounds as [Hn1 Hn2].
  assert (Hg : Spec.N' ref_d1 / (50 * (4/10) * sqrt (1/2))
               = Spec.N' ref_d1 * sqrt (1/2) / 10).
  { generalize inv_sqrt_half. set (s := sqrt (1/2)). intros Hs.
    unfold Rdiv. rewrite !Rinv_mult, Hs. field. }
  assert (Ht : - 50 * Spec.N' ref_d1 * (4/10) / (2 * sqrt (1/2))
               = - 20 * (Spec.N' ref_d1 * sqrt (1/2))).
  { generalize inv_sqrt_half. set (s := sqrt (1/2)). intros Hs.
    unfold Rdiv. rewrite !Rinv_mult, Hs. field. }
  rewrite Hg, Ht.
  replace (50 * exp (- (2/100) * (1/2)) * Spec.N ref_d1)
    with (50 * (exp (- (2/100) * (1/2)) * Spec.N ref_d1)) by ring.
  replace (48 * exp (- (5/100) * (1/2)) * Spec.N ref_d2)
    with (48 * (exp (- (5/100) * (1/2)) * Spec.N ref_d2)) by ring.
  replace (5/100 * 48 * exp (- (5/100) * (1/2)) * Spec.N ref_d2)
    with (5/100 * 48 * (exp (- (5/100) * (1/2)) * Spec.N ref_d2)) by ring.
  replace (48 * (1/2) * exp (- (5/100) * (1/2)) * Spec.N ref_d2)
    with (48 * (1/2) * (exp (- (5/100) * (1/2)) * Spec.N ref_d2)) by ring.
  replace (50 * Spec.N' ref_d1 * sqrt (1/2))
    with (50 * (Spec.N' ref_d1 * sqrt (1/2))) by ring.
  set (aN := exp (- (2/100) * (1/2)) * Spec.N ref_d1) in *.
  set (bN := exp (- (5/100) * (1/2)) * Spec.N ref_d2) in *.
  set (z := Spec.N' ref_d1 * sqrt (1/2)) in *.
  repeat split; apply Rabs_le; lra.
Qed.

(** ** C10: default arguments *)

(** C10: a call that leaves out option_type and q is the call with
    option_type = "C" and q = 0, so it prices a Call. *)
Theorem C10_default_arguments (r S K T sigma : R) :
  BlackScholes_call r S K T sigma None None
  = BlackScholes_call r S K T sigma (Some "C"%string) (Some 0) /\
  BlackScholes_call r S K T sigma None None = BlackScholes r S K T sigma "C" 0.
Proof. split; reflexivity. Qed.

(** * Further properties of BlackScholes *)

(** ** The printed numbers, one by one *)

Section Outputs.

Variables (r S K T sigma q : R).
Hypothesis HK : K <> 0.

Let d1 : R := Spec.d1 r S K T sigma q.
Let d2 : R := Spec.d2 r S K T sigma q.

Ltac output_of_run :=
  unfold output, run;
  rewrite ?(BlackScholes_C r S K T sigma q [] HK), ?(BlackScholes_P r S K T sigma q [] HK);
  simpl; rewrite ?cdf_0_1, ?pdf_0_1; reflexivity.

Lemma output_call_price :
  output "Call Option Price: " r S K T sigma "C" q = Spec.call_price r S K T sigma q.
Proof. output_of_run. Qed.

Lemma output_put_price :
  output "Put Option Price: " r S K T sigma "P" q = Spec.put_price r S K T sigma q.
Proof. output_of_run. Qed.

Lemma output_call_delta : output "Call Delta: " r S K T sigma "C" q = Spec.N d1.
Proof. output_of_run. Qed.

Lemma output_put_delta : output "Put Delta: " r S K T sigma "P" q = - Spec.N (- d1).
Proof. output_of_run. Qed.

Lemma output_gamma_C :
  output "Gamma: " r S K T sigma "C" q = Spec.N' d1 / (S * sigma * sqrt T).
Proof. output_of_run. Qed.

Lemma output_gamma_P :
  output "Gamma: " r S K T sigma "P" q = Spec.N' d1 / (S * sigma * sqrt T).
Proof. output_of_run. Qed.

Lemma output_vega_C :
  output "Vega: " r S K T sigma "C" q = (S * Spec.N' d1 * sqrt T) * (1 / 100).
Proof. output_of_run. Qed.

Lemma output_vega_P :
  output "Vega: " r S K T sigma "P" q = (S * Spec.N' d1 * sqrt T) * (1 / 100).
Proof. output_of_run. Qed.

Lemma output_call_theta :
  output "Call Theta: " r S K T sigma "C" q
  = (- S * Spec.N' d1 * sigma / (2 * sqrt T) + q * S * Spec.N d1
     - r * K * exp (- r * T) * Spec.N d2) / 252.
Proof. output_of_run. Qed.

Lemma output_put_theta :
  output "Put Theta: " r S K T sigma "P" q
  = (- S * Spec.N' d1 * sigma / (2 * sqrt T) - q * S * Spec.N (- d1)
     + r * K * exp (- r * T) * Spec.N (- d2)) / 252.
Proof. output_of_run. Qed.

Lemma output_call_rho :
  output "Call Rho: " r S K T sigma "C" q
  = (K * T * exp (- r * T) * Spec.N d2) * (1 / 100).
Proof. output_of_run. Qed.

Lemma output_put_rho :
  output "Put Rho: " r S K T sigma "P" q
  = (- K * T * exp (- r * T) * Spec.N (- d2)) * (1 / 100).
Proof. output_of_run. Qed.

End Outputs.

(** ** Exceptions *)


(** ** Relations between the printed numbers *)

Section Relations.

Variables (r S K T sigma q : R).




(** X5: the printed rho is the notebook's formula, for a Call
    0.01 K T e^(-rT) N(d2) and for a Put -0.01 K T e^(-rT) N(-d2). *)
Theorem rho_formulas :
  0 < S -> 0 < K -> 0 < T -> 0 < sigma ->
  output "Call Rho: " r S K T sigma "C" q = Spec.call_rho r S K T sigma q /\
  output "Put Rho: " r S K T sigma "P" q = Spec.put_rho r S K T sigma q.
Proof.
  intros HS HK HT Hs. assert (HK0 : K <> 0) by lra.
  rewrite output_call_rho, output_put_rho by exact HK0.
  unfold Spec.call_rho, Spec.put_rho. split; ring.
Qed.

Lemma output_gamma_vega_pos :
  0 < S -> 0 < K -> 0 < T -> 0 < sigma ->
  0 < output "Gamma: " r S K T sigma "C" q /\ 0 < output "Vega: " r S K T sigma "C" q.
Proof.
  intros HS HK HT Hs. assert (HK0 : K <> 0) by lra.
  rewrite output_gamma_C, output_vega_C by exact HK0.
  assert (Hq : 0 < sqrt T) by (apply sqrt_lt_R0; exact HT).
  generalize (std_pdf_pos (Spec.d1 r S K T sigma q)).
  fold (Spec.N' (Spec.d1 r S K T sigma q)).
  set (p := Spec.N' (Spec.d1 r S K T sigma q)). intros Hp.
  split.
  - apply Rdiv_lt_0_compat; [exact Hp |].
    apply Rmult_lt_0_compat; [| exact Hq].
    apply Rmult_lt_0_compat; assumption.
  - apply Rmult_lt_0_compat; [| lra].
    apply Rmult_lt_0_compat; [| exact Hq].
    apply Rmult_lt_0_compat; assumption.
Qed.

(** X6: for valid inputs the printed Gamma and Vega are positive, they are
    the same for "C" and "P", and Vega = 0.01 S^2 sigma T Gamma. *)
Theorem gamma_vega_positive_and_related :
  0 < S -> 0 < K -> 0 < T -> 0 < sigma ->
  0 < output "Gamma: " r S K T sigma "C" q /\
  0 < output "Vega: " r S K T sigma "C" q /\
  output "Gamma: " r S K T sigma "P" q = output "Gamma: " r S K T sigma "C" q /\
  output "Vega: " r S K T sigma "P" q = output "Vega: " r S K T sigma "C" q /\
  output "Vega: " r S K T sigma "C" q
  = (1 / 100) * S ^ 2 * sigma * T * output "Gamma: " r S K T sigma "C" q.
Proof.
  intros HS HK HT Hs. assert (HK0 : K <> 0) by lra.
  destruct (output_gamma_vega_pos HS HK HT Hs) as [Hg Hv].
  split; [exact Hg |]. split; [exact Hv |].
  rewrite output_gamma_C, output_gamma_P, output_vega_C, output_vega_P by exact HK0.
  assert (Hq : 0 < sqrt T) by (apply sqrt_lt_R0; exact HT).
  assert (Hqq : sqrt T * sqrt T = T) by (apply sqrt_sqrt; lra).
  split; [reflexivity |]. split; [reflexivity |].
  set (s := sqrt T) in *. rewrite <- Hqq. field. repeat split; lra.
Qed.

(** X7: when q = 0 (the default of the signature) every printed Greek is
    the notebook's formula. *)
Theorem greeks_agree_without_dividend :
  0 < S -> 0 < K -> 0 < T -> 0 < sigma -> q = 0 ->
  output "Call Delta: " r S K T sigma "C" q = Spec.call_delta r S K T sigma q /\
  output "Put Delta: " r S K T sigma "P" q = Spec.put_delta r S K T sigma q /\
  output "Gamma: " r S K T sigma "C" q = Spec.gamma r S K T sigma q /\
  output "Vega: " r S K T sigma "C" q = Spec.vega r S K T sigma q /\
  output "Call Theta: " r S K T sigma "C" q = Spec.call_theta r S K T sigma q /\
  output "Put Theta: " r S K T sigma "P" q = Spec.put_theta r S K T sigma q.
Proof.
  intros HS HK HT Hs Hq0. assert (HK0 : K <> 0) by lra.
  rewrite output_call_delta, output_put_delta, output_gamma_C, output_vega_C,
    output_call_theta, output_put_theta by exact HK0.
  unfold Spec.call_delta, Spec.put_delta, Spec.gamma, Spec.vega,
    Spec.call_theta, Spec.put_theta.
  fold (Spec.d2 r S K T sigma q).
  assert (He : exp (- q * T) = 1).
  { rewrite Hq0. replace (- 0 * T) with 0 by ring. apply exp_0. }
  rewrite He.
  assert (Hsq : 0 < sqrt T) by (apply sqrt_lt_R0; exact HT).
  repeat split; field; repeat split; lra.
Qed.

(** X8: for valid inputs the notebook's Delta, Gamma and Vega are e^(-qT)
    times the printed ones. *)
Theorem greeks_dividend_factor :
  0 < S -> 0 < K -> 0 < T -> 0 < sigma ->
  Spec.call_delta r S K T sigma q
  = exp (- q * T) * output "Call Delta: " r S K T sigma "C" q /\
  Spec.put_delta r S K T sigma q
  = exp (- q * T) * output "Put Delta: " r S K T sigma "P" q /\
  Spec.gamma r S K T sigma q = exp (- q * T) * output "Gamma: " r S K T sigma "C" q /\
  Spec.vega r S K T sigma q = exp (- q * T) * output "Vega: " r S K T sigma "C" q.
Proof.
  intros HS HK HT Hs. assert (HK0 : K <> 0) by lra.
  assert (Hsq : 0 < sqrt T) by (apply sqrt_lt_R0; exact HT).
  rewrite output_call_delta, output_put_delta, output_gamma_C, output_vega_C by exact HK0.
  unfold Spec.call_delta, Spec.put_delta, Spec.gamma, Spec.vega.
  repeat split; field; repeat split; lra.
Qed.

(** X9: for valid inputs with a dividend yield q <> 0 the printed Gamma
    and Vega are never the notebook's ones. *)
Theorem gamma_vega_never_documented :
  0 < S -> 0 < K -> 0 < T -> 0 < sigma -> q <> 0 ->
  output "Gamma: " r S K T sigma "C" q <> Spec.gamma r S K T sigma q /\
  output "Vega: " r S K T sigma "C" q <> Spec.vega r S K T sigma q.
Proof.
  intros HS HK HT Hs Hq. assert (HK0 : K <> 0) by lra.
  destruct (output_gamma_vega_pos HS HK HT Hs) as [Hg Hv].
  assert (Hsq : 0 < sqrt T) by (apply sqrt_lt_R0; exact HT).
  assert (E1 : Spec.gamma r S K T sigma q
               = exp (- q * T) * output "Gamma: " r S K T sigma "C" q).
  { rewrite output_gamma_C by exact HK0. unfold Spec.gamma. field. repeat split; lra. }
  assert (E2 : Spec.vega r S K T sigma q
               = exp (- q * T) * output "Vega: " r S K T sigma "C" q).
  { rewrite output_vega_C by exact HK0. unfold Spec.vega. field. }
  assert (Hne : exp (- q * T) <> 1).
  { intros He. rewrite <- exp_0 in He. apply exp_inv in He. nra. }
  rewrite E1, E2. split; intros Heq; apply Hne; nra.
Qed.

End Relations.




Lemma rho_formulas_witness :
  output "Call Rho: " (5/100) 50 48 (1/2) (4/10) "C" (2/100)
  = Spec.call_rho (5/100) 50 48 (1/2) (4/10) (2/100) /\
  output "Put Rho: " (5/100) 50 48 (1/2) (4/10) "P" (2/100)
  = Spec.put_rho (5/100) 50 48 (1/2) (4/10) (2/100).
Proof. apply (rho_formulas (5/100) 50 48 (1/2) (4/10) (2/100)); lra. Defined.

Lemma gamma_vega_positive_and_related_witness :
  0 < output "Gamma: " (5/100) 50 48 (1/2) (4/10) "C" (2/100) /\
  0 < output "Vega: " (5/100) 50 48 (1/2) (4/10) "C" (2/100) /\
  output "Gamma: " (5/100) 50 48 (1/2) (4/10) "P" (2/100)
  = output "Gamma: " (5/100) 50 48 (1/2) (4/10) "C" (2/100) /\
  output "Vega: " (5/100) 50 48 (1/2) (4/10) "P" (2/100)
  = output "Vega: " (5/100) 50 48 (1/2) (4/10) "C" (2/100) /\
  output "Vega: " (5/100) 50 48 (1/2) (4/10) "C" (2/100)
  = (1 / 100) * 50 ^ 2 * (4/10) * (1/2)
    * output "Gamma: " (5/100) 50 48 (1/2) (4/10) "C" (2/100).
Proof.
  apply (gamma_vega_positive_and_related (5/100) 50 48 (1/2) (4/10) (2/100)); lra.
Defined.

Lemma greeks_agree_without_dividend_witness :
  output "Call Delta: " (5/100) 50 48 (1/2) (4/10) "C" 0
  = Spec.call_delta (5/100) 50 48 (1/2) (4/10) 0 /\
  output "Put Delta: " (5/100) 50 48 (1/2) (4/10) "P" 0
  = Spec.put_delta (5/100) 50 48 (1/2) (4/10) 0 /\
  output "Gamma: " (5/100) 50 48 (1/2) (4/10) "C" 0
  = Spec.gamma (5/100) 50 48 (1/2) (4/10) 0 /\
  output "Vega: " (5/100) 50 48 (1/2) (4/10) "C" 0
  = Spec.vega (5/100) 50 48 (1/2) (4/10) 0 /\
  output "Call Theta: " (5/100) 50 48 (1/2) (4/10) "C" 0
  = Spec.call_theta (5/100) 50 48 (1/2) (4/10) 0 /\
  output "Put Theta: " (5/100) 50 48 (1/2) (4/10) "P" 0
  = Spec.put_theta (5/100) 50 48 (1/2) (4/10) 0.
Proof.
  apply (greeks_agree_without_dividend (5/100) 50 48 (1/2) (4/10) 0); lra.
Defined.

Lemma greeks_dividend_factor_witness :
  Spec.call_delta (5/100) 50 48 (1/2) (4/10) (2/100)
  = exp (- (2/100) * (1/2)) * output "Call Delta: " (5/100) 50 48 (1/2) (4/10) "C" (2/100) /\
  Spec.put_delta (5/100) 50 48 (1/2) (4/10) (2/100)
  = exp (- (2/100) * (1/2)) * output "Put Delta: " (5/100) 50 48 (1/2) (4/10) "P" (2/100) /\
  Spec.gamma (5/100) 50 48 (1/2) (4/10) (2/100)
  = exp (- (2/100) * (1/2)) * output "Gamma: " (5/100) 50 48 (1/2) (4/10) "C" (2/100) /\
  Spec.vega (5/100) 50 48 (1/2) (4/10) (2/100)
  = exp (- (2/100) * (1/2)) * output "Vega: " (5/100) 50 48 (1/2) (4/10) "C" (2/100).
Proof.
  apply (greeks_dividend_factor (5/100) 50 48 (1/2) (4/10) (2/100)); lra.
Defined.

Lemma gamma_vega_never_documented_witness :
  output "Gamma: " (5/100) 50 48 (1/2) (4/10) "C" (2/100)
  <> Spec.gamma (5/100) 50 48 (1/2) (4/10) (2/100) /\
  output "Vega: " (5/100) 50 48 (1/2) (4/10) "C" (2/100)
  <> Spec.vega (5/100) 50 48 (1/2) (4/10) (2/100).
Proof.
  apply (gamma_vega_never_documented (5/100) 50 48 (1/2) (4/10) (2/100)); lra.
Defined.

(** ** The printed Greeks as sensitivities of the printed price *)

Lemma N_comp_derivable (f : R -> R) (x l : R) :
  derivable_pt_lim f x l ->
  derivable_pt_lim (fun t => Spec.N (f t)) x (Spec.N' (f x) * l).
Proof.
  intros H. apply (derivable_pt_lim_comp f Spec.N); [exact H |].
  apply std_cdf_derivable_pt_lim.
Qed.

(** Both prices have the shape a N(u) - b N(u - v); where a N'(u) = b N'(u - v)
    the derivative of u drops out. *)
Section PriceShape.

Variables (a b u v : R -> R) (x a' b' u' v' : R).
Hypothesis Ha : derivable_pt_lim a x a'.
Hypothesis Hb : derivable_pt_lim b x b'.
Hypothesis Hu : derivable_pt_lim u x u'.
Hypothesis Hv : derivable_pt_lim v x v'.
Hypothesis Hkey : a x * Spec.N' (u x) = b x * Spec.N' (u x - v x).

Lemma call_shape_derivable :
  derivable_pt_lim (fun t => a t * Spec.N (u t) - b t * Spec.N (u t - v t)) x
    (a' * Spec.N (u x) - b' * Spec.N (u x - v x) + b x * Spec.N' (u x - v x) * v').
Proof.
  assert (H1 := N_comp_derivable u x u' Hu).
  assert (H2 := N_comp_derivable (fun t => u t - v t) x (u' - v')
                  (derivable_pt_lim_minus u v x u' v' Hu Hv)).
  assert (H3 := derivable_pt_lim_mult a _ x _ _ Ha H1).
  assert (H4 := derivable_pt_lim_mult b _ x _ _ Hb H2).
  assert (H5 := derivable_pt_lim_minus _ _ x _ _ H3 H4).
  match type of H5 with
  | derivable_pt_lim _ _ ?l =>
      replace (a' * Spec.N (u x) - b' * Spec.N (u x - v x)
               + b x * Spec.N' (u x - v x) * v') with l; [exact H5 |]
  end.
  transitivity (a' * Spec.N (u x) - b' * Spec.N (u x - v x)
                + b x * Spec.N' (u x - v x) * v'
                + (a x * Spec.N' (u x) - b x * Spec.N' (u x - v x)) * u').
  - ring.
  - rewrite Hkey. ring.
Qed.

Lemma put_shape_derivable :
  derivable_pt_lim (fun t => b t * Spec.N (- (u t - v t)) - a t * Spec.N (- u t)) x
    (b' * Spec.N (- (u x - v x)) - a' * Spec.N (- u x)
     + b x * Spec.N' (u x - v x) * v').
Proof.
  apply (derivable_pt_lim_ext
           (fun t => (a t * Spec.N (u t) - b t * Spec.N (u t - v t)) + (b t - a t))).
  { intro t. unfold Spec.N. rewrite !std_cdf_opp. ring. }
  replace (b' * Spec.N (- (u x - v x)) - a' * Spec.N (- u x)
           + b x * Spec.N' (u x - v x) * v')
    with ((a' * Spec.N (u x) - b' * Spec.N (u x - v x)
           + b x * Spec.N' (u x - v x) * v') + (b' - a')).
  - apply (derivable_pt_lim_plus
             (fun t => a t * Spec.N (u t) - b t * Spec.N (u t - v t))
             (fun t => b t - a t)).
    + apply call_shape_derivable.
    + apply (derivable_pt_lim_minus b a); assumption.
  - unfold Spec.N. rewrite !std_cdf_opp. ring.
Qed.

End PriceShape.

(** S e^(-qT) N'(d1) = K e^(-rT) N'(d2). *)
Lemma pdf_d1_d2 (r S K T sigma q : R) :
  0 < S -> 0 < K -> 0 < T -> 0 < sigma ->
  S * exp (- q * T) * Spec.N' (Spec.d1 r S K T sigma q)
  = K * exp (- r * T) * Spec.N' (Spec.d2 r S K T sigma q).
Proof.
  intros HS HK HT Hs.
  assert (Hq : 0 < sqrt T) by (apply sqrt_lt_R0; exact HT).
  assert (Hqq : sqrt T * sqrt T = T) by (apply sqrt_sqrt; lra).
  assert (Hln : ln (S / K) = ln S - ln K).
  { unfold Rdiv. rewrite ln_mult, ln_Rinv; [ring | lra | lra |].
    apply Rinv_0_lt_compat. exact HK. }
  unfold Spec.N'. rewrite !std_pdf_eq.
  rewrite <- (exp_ln S HS) at 1. rewrite <- (exp_ln K HK) at 2.
  rewrite <- !Rmult_assoc, <- !exp_plus.
  f_equal. f_equal.
  unfold Spec.d2.
  set (d := Spec.d1 r S K T sigma q).
  assert (Hd : d * (sigma * sqrt T) = ln S - ln K + (r - q + sigma ^ 2 / 2) * T).
  { unfold d, Spec.d1. rewrite Hln. field. split; lra. }
  set (s := sqrt T) in *.
  replace (ln K + - r * T + - ((d - sigma * s) ^ 2 / 2))
    with (ln K - r * T - d ^ 2 / 2 + d * (sigma * s) - sigma ^ 2 * (s * s) / 2) by field.
  rewrite Hd, Hqq. field.
Qed.

(** Closes a derivative goal with a derivative already built, up to an
    equation between the two values. *)
Ltac derive_with H :=
  cbv beta in H;
  match type of H with
  | derivable_pt_lim _ _ ?l =>
      match goal with
      | |- derivable_pt_lim ?f ?x ?l' =>
          cut (l = l');
          [ let E := fresh "E" in
            intros E; exact (eq_ind l (fun z => derivable_pt_lim f x z) H l' E)
          | ]
      end
  end.

Lemma derivable_pt_lim_linear (c x : R) : derivable_pt_lim (fun t => t * c) x c.
Proof.
  assert (H := derivable_pt_lim_mult id (fun _ => c) x 1 0
                 (derivable_pt_lim_id x) (derivable_pt_lim_const c x)).
  derive_with H. unfold id. ring.
Qed.

Lemma derivable_pt_lim_exp_linear (k c x : R) :
  derivable_pt_lim (fun t => k * exp (- t * c)) x (- c * (k * exp (- x * c))).
Proof.
  replace (- c * (k * exp (- x * c))) with (k * (exp (- x * c) * (- c))) by ring.
  apply (derivable_pt_lim_scal (fun t => exp (- t * c))).
  apply (derivable_pt_lim_comp (fun t => - t * c) exp).
  - apply (derivable_pt_lim_ext (fun t => t * (- c))); [intro; ring |].
    apply derivable_pt_lim_linear.
  - apply derivable_pt_lim_exp.
Qed.

Section Sensitivities.

Variables (r S K T sigma q : R).
Hypothesis HS : 0 < S.
Hypothesis HK : 0 < K.
Hypothesis HT : 0 < T.
Hypothesis Hsigma : 0 < sigma.

Let HK0 : K <> 0 := Rgt_not_eq K 0 HK.
Let Hsqrt : 0 < sqrt T := sqrt_lt_R0 T HT.

(** d1 as a function of the spot. *)
Lemma d1_derivable_S :
  derivable_pt_lim (fun s => Spec.d1 r s K T sigma q) S (/ S / (sigma * sqrt T)).
Proof.
  unfold Spec.d1.
  apply (derivable_pt_lim_div_scal
           (fun s => ln (s / K) + (r - q + sigma ^ 2 / 2) * T)).
  assert (H1 : derivable_pt_lim (fun s => ln (s / K)) S (/ (S / K) * (1 / K))).
  { apply (derivable_pt_lim_comp (fun s => s / K) ln).
    - apply (derivable_pt_lim_div_scal id). apply derivable_pt_lim_id.
    - apply derivable_pt_lim_ln. apply Rdiv_lt_0_compat; assumption. }
  assert (H := derivable_pt_lim_plus _ (fun _ => (r - q + sigma ^ 2 / 2) * T) S _ _
                 H1 (derivable_pt_lim_const _ S)).
  derive_with H. field. split; lra.
Qed.

(** d1 as a function of the rate. *)
Lemma d1_derivable_r :
  derivable_pt_lim (fun x => Spec.d1 x S K T sigma q) r (T / (sigma * sqrt T)).
Proof.
  unfold Spec.d1.
  apply (derivable_pt_lim_div_scal
           (fun x => ln (S / K) + (x - q + sigma ^ 2 / 2) * T)).
  apply (derivable_pt_lim_ext
           (fun x => x * T + (ln (S / K) + (- q + sigma ^ 2 / 2) * T))).
  { intro x. ring. }
  assert (H := derivable_pt_lim_plus _ (fun _ => ln (S / K) + (- q + sigma ^ 2 / 2) * T)
                 r _ _ (derivable_pt_lim_linear T r) (derivable_pt_lim_const _ r)).
  derive_with H. ring.
Qed.

(** d1 as a function of the volatility and of the time to expiry: some
    derivative exists; its value is not needed. *)
Lemma d1_derivable_sigma :
  exists l : R, derivable_pt_lim (fun x => Spec.d1 r S K T x q) sigma l.
Proof.
  unfold Spec.d1. eexists.
  apply (derivable_pt_lim_div
           (fun x => ln (S / K) + (r - q + x ^ 2 / 2) * T) (fun x => x * sqrt T)).
  - apply (derivable_pt_lim_plus (fun _ => ln (S / K)) (fun x => (r - q + x ^ 2 / 2) * T)).
    + apply derivable_pt_lim_const.
    + apply (derivable_pt_lim_ext (fun x => x ^ 2 * (T / 2) + (r - q) * T)).
      { intro x. field. }
      apply (derivable_pt_lim_plus (fun x => x ^ 2 * (T / 2)) (fun _ => (r - q) * T)).
      * apply (derivable_pt_lim_mult (fun x => x ^ 2) (fun _ => T / 2)).
        -- apply (derivable_pt_lim_pow sigma 2).
        -- apply derivable_pt_lim_const.
      * apply derivable_pt_lim_const.
  - apply derivable_pt_lim_linear.
  - apply Rgt_not_eq. apply Rmult_lt_0_compat; assumption.
Qed.

Lemma d1_derivable_T :
  exists l : R, derivable_pt_lim (fun t => Spec.d1 r S K t sigma q) T l.
Proof.
  unfold Spec.d1. eexists.
  apply (derivable_pt_lim_div
           (fun t => ln (S / K) + (r - q + sigma ^ 2 / 2) * t) (fun t => sigma * sqrt t)).
  - apply (derivable_pt_lim_plus (fun _ => ln (S / K)) (fun t => (r - q + sigma ^ 2 / 2) * t)).
    + apply derivable_pt_lim_const.
    + apply (derivable_pt_lim_ext (fun t => t * (r - q + sigma ^ 2 / 2))).
      { intro t. ring. }
      apply derivable_pt_lim_linear.
  - apply (derivable_pt_lim_scal sqrt). apply derivable_pt_lim_sqrt. exact HT.
  - apply Rgt_not_eq. apply Rmult_lt_0_compat; assumption.
Qed.


Let Hkey : S * exp (- q * T) * Spec.N' (Spec.d1 r S K T sigma q)
           = K * exp (- r * T) * Spec.N' (Spec.d1 r S K T sigma q - sigma * sqrt T)
  := pdf_d1_d2 r S K T sigma q HS HK HT Hsigma.

Lemma N_d1_derivable_S :
  derivable_pt_lim (fun s => Spec.N (Spec.d1 r s K T sigma q)) S
    (Spec.N' (Spec.d1 r S K T sigma q) / (S * sigma * sqrt T)).
Proof.
  assert (H := N_comp_derivable _ S _ d1_derivable_S).
  derive_with H. field. repeat split; lra.
Qed.

Lemma call_price_derivable_sigma :
  derivable_pt_lim (fun x => Spec.call_price r S K T x q) sigma
    (S * exp (- q * T) * Spec.N' (Spec.d1 r S K T sigma q) * sqrt T).
Proof.
  destruct d1_derivable_sigma as [l Hl].
  assert (H := call_shape_derivable
                 (fun _ => S * exp (- q * T)) (fun _ => K * exp (- r * T))
                 (fun x => Spec.d1 r S K T x q) (fun x => x * sqrt T)
                 sigma _ _ _ _
                 (derivable_pt_lim_const _ sigma) (derivable_pt_lim_const _ sigma)
                 Hl (derivable_pt_lim_linear _ sigma) Hkey).
  derive_with H. rewrite Hkey. ring.
Qed.

Lemma put_price_derivable_sigma :
  derivable_pt_lim (fun x => Spec.put_price r S K T x q) sigma
    (S * exp (- q * T) * Spec.N' (Spec.d1 r S K T sigma q) * sqrt T).
Proof.
  destruct d1_derivable_sigma as [l Hl].
  assert (H := put_shape_derivable
                 (fun _ => S * exp (- q * T)) (fun _ => K * exp (- r * T))
                 (fun x => Spec.d1 r S K T x q) (fun x => x * sqrt T)
                 sigma _ _ _ _
                 (derivable_pt_lim_const _ sigma) (derivable_pt_lim_const _ sigma)
                 Hl (derivable_pt_lim_linear _ sigma) Hkey).
  derive_with H. rewrite Hkey. ring.
Qed.


(** X11: the printed Delta is differentiable in the spot S and its
    derivative is the printed Gamma, for a Call and for a Put. *)
Theorem delta_spot_sensitivity :
  derivable_pt_lim (fun s => output "Call Delta: " r s K T sigma "C" q) S
    (output "Gamma: " r S K T sigma "C" q) /\
  derivable_pt_lim (fun s => output "Put Delta: " r s K T sigma "P" q) S
    (output "Gamma: " r S K T sigma "P" q).
Proof.
  rewrite output_gamma_C, output_gamma_P by exact HK0.
  split.
  - apply (derivable_pt_lim_ext (fun s => Spec.N (Spec.d1 r s K T sigma q))).
    { intro s. symmetry. apply output_call_delta, HK0. }
    exact N_d1_derivable_S.
  - apply (derivable_pt_lim_ext (fun s => Spec.N (Spec.d1 r s K T sigma q) + - 1)).
    { intro s. rewrite output_put_delta by exact HK0.
      unfold Spec.N. rewrite std_cdf_opp. ring. }
    assert (H := derivable_pt_lim_plus _ (fun _ => - 1) S _ _ N_d1_derivable_S
                   (derivable_pt_lim_const _ S)).
    derive_with H. ring.
Qed.

(** X12: the printed price is differentiable in the rate r and its
    derivative is 100 times the printed Rho, for a Call and for a Put. *)
Theorem price_rate_sensitivity :
  derivable_pt_lim (fun x => output "Call Option Price: " x S K T sigma "C" q) r
    (100 * output "Call Rho: " r S K T sigma "C" q) /\
  derivable_pt_lim (fun x => output "Put Option Price: " x S K T sigma "P" q) r
    (100 * output "Put Rho: " r S K T sigma "P" q).
Proof.
  rewrite output_call_rho, output_put_rho by exact HK0.
  split.
  - apply (derivable_pt_lim_ext (fun x => Spec.call_price x S K T sigma q)).
    { intro x. symmetry. apply output_call_price, HK0. }
    assert (H := call_shape_derivable
                   (fun _ => S * exp (- q * T)) (fun x => K * exp (- x * T))
                   (fun x => Spec.d1 x S K T sigma q) (fun _ => sigma * sqrt T)
                   r _ _ _ _
                   (derivable_pt_lim_const _ r) (derivable_pt_lim_exp_linear K T r)
                   d1_derivable_r (derivable_pt_lim_const _ r) Hkey).
    derive_with H. unfold Spec.d2. field.
  - apply (derivable_pt_lim_ext (fun x => Spec.put_price x S K T sigma q)).
    { intro x. symmetry. apply output_put_price, HK0. }
    assert (H := put_shape_derivable
                   (fun _ => S * exp (- q * T)) (fun x => K * exp (- x * T))
                   (fun x => Spec.d1 x S K T sigma q) (fun _ => sigma * sqrt T)
                   r _ _ _ _
                   (derivable_pt_lim_const _ r) (derivable_pt_lim_exp_linear K T r)
                   d1_derivable_r (derivable_pt_lim_const _ r) Hkey).
    derive_with H. unfold Spec.d2. field.
Qed.

(** X13: the printed price is differentiable in the volatility sigma and
    its derivative is 100 e^(-qT) times the printed Vega, for a Call and for
    a Put. *)
Theorem price_volatility_sensitivity :
  derivable_pt_lim (fun x => output "Call Option Price: " r S K T x "C" q) sigma
    (100 * exp (- q * T) * output "Vega: " r S K T sigma "C" q) /\
  derivable_pt_lim (fun x => output "Put Option Price: " r S K T x "P" q) sigma
    (100 * exp (- q * T) * output "Vega: " r S K T sigma "P" q).
Proof.
  rewrite output_vega_C, output_vega_P by exact HK0.
  split.
  - apply (derivable_pt_lim_ext (fun x => Spec.call_price r S K T x q)).
    { intro x. symmetry. apply output_call_price, HK0. }
    assert (H := call_price_derivable_sigma). derive_with H. field.
  - apply (derivable_pt_lim_ext (fun x => Spec.put_price r S K T x q)).
    { intro x. symmetry. apply output_put_price, HK0. }
    assert (H := put_price_derivable_sigma). derive_with H. field.
Qed.

(** X14: the printed price is differentiable in the time to expiry T and
    its derivative is -252 times the notebook's Theta, for a Call and for a
    Put.  (The printed Theta is the notebook's when q = 0.) *)
Theorem price_time_sensitivity :
  derivable_pt_lim (fun t => output "Call Option Price: " r S K t sigma "C" q) T
    (- 252 * Spec.call_theta r S K T sigma q) /\
  derivable_pt_lim (fun t => output "Put Option Price: " r S K t sigma "P" q) T
    (- 252 * Spec.put_theta r S K T sigma q).
Proof.
  destruct d1_derivable_T as [l Hl].
  assert (Hkey' : S * exp (- T * q) * Spec.N' (Spec.d1 r S K T sigma q)
                  = K * exp (- T * r)
                    * Spec.N' (Spec.d1 r S K T sigma q - sigma * sqrt T)).
  { replace (- T * q) with (- q * T) by ring. replace (- T * r) with (- r * T) by ring.
    exact Hkey. }
  assert (Hv : derivable_pt_lim (fun t => sigma * sqrt t) T (sigma * / (2 * sqrt T))).
  { apply (derivable_pt_lim_scal sqrt). apply derivable_pt_lim_sqrt. exact HT. }
  split.
  - apply (derivable_pt_lim_ext
             (fun t => S * exp (- t * q) * Spec.N (Spec.d1 r S K t sigma q)
                       - K * exp (- t * r)
                         * Spec.N (Spec.d1 r S K t sigma q - sigma * sqrt t))).
    { intro t. rewrite output_call_price by exact HK0.
      unfold Spec.call_price, Spec.d2.
      replace (- t * q) with (- q * t) by ring. replace (- t * r) with (- r * t) by ring.
      reflexivity. }
    assert (H := call_shape_derivable
                   (fun t => S * exp (- t * q)) (fun t => K * exp (- t * r))
                   (fun t => Spec.d1 r S K t sigma q) (fun t => sigma * sqrt t)
                   T _ _ _ _
                   (derivable_pt_lim_exp_linear S q T) (derivable_pt_lim_exp_linear K r T)
                   Hl Hv Hkey').
    derive_with H. unfold Spec.call_theta, Spec.d2.
    replace (- T * q) with (- q * T) by ring. replace (- T * r) with (- r * T) by ring.
    transitivity
      (- q * (S * exp (- q * T)) * Spec.N (Spec.d1 r S K T sigma q)
       + r * (K * exp (- r * T)) * Spec.N (Spec.d1 r S K T sigma q - sigma * sqrt T)
       + (K * exp (- r * T) * Spec.N' (Spec.d1 r S K T sigma q - sigma * sqrt T))
         * (sigma * / (2 * sqrt T))).
    + ring.
    + rewrite <- Hkey. field. lra.
  - apply (derivable_pt_lim_ext
             (fun t => K * exp (- t * r)
                       * Spec.N (- (Spec.d1 r S K t sigma q - sigma * sqrt t))
                       - S * exp (- t * q) * Spec.N (- Spec.d1 r S K t sigma q))).
    { intro t. rewrite output_put_price by exact HK0.
      unfold Spec.put_price, Spec.d2.
      replace (- t * q) with (- q * t) by ring. replace (- t * r) with (- r * t) by ring.
      reflexivity. }
    assert (H := put_shape_derivable
                   (fun t => S * exp (- t * q)) (fun t => K * exp (- t * r))
                   (fun t => Spec.d1 r S K t sigma q) (fun t => sigma * sqrt t)
                   T _ _ _ _
                   (derivable_pt_lim_exp_linear S q T) (derivable_pt_lim_exp_linear K r T)
                   Hl Hv Hkey').
    derive_with H. unfold Spec.put_theta, Spec.d2.
    replace (- T * q) with (- q * T) by ring. replace (- T * r) with (- r * T) by ring.
    transitivity
      (- r * (K * exp (- r * T)) * Spec.N (- (Spec.d1 r S K T sigma q - sigma * sqrt T))
       + q * (S * exp (- q * T)) * Spec.N (- Spec.d1 r S K T sigma q)
       + (K * exp (- r * T) * Spec.N' (Spec.d1 r S K T sigma q - sigma * sqrt T))
         * (sigma * / (2 * sqrt T))).
    + ring.
    + rewrite <- Hkey. field. lra.
Qed.

End Sensitivities.


Lemma delta_spot_sensitivity_witness :
  derivable_pt_lim
    (fun s => output "Call Delta: " (5/100) s 48 (1/2) (4/10) "C" (2/100)) 50
    (output "Gamma: " (5/100) 50 48 (1/2) (4/10) "C" (2/100)) /\
  derivable_pt_lim
    (fun s => output "Put Delta: " (5/100) s 48 (1/2) (4/10) "P" (2/100)) 50
    (output "Gamma: " (5/100) 50 48 (1/2) (4/10) "P" (2/100)).
Proof. apply (delta_spot_sensitivity (5/100) 50 48 (1/2) (4/10) (2/100)); lra. Defined.

Lemma price_rate_sensitivity_witness :
  derivable_pt_lim
    (fun x => output "Call Option Price: " x 50 48 (1/2) (4/10) "C" (2/100)) (5/100)
    (100 * output "Call Rho: " (5/100) 50 48 (1/2) (4/10) "C" (2/100)) /\
  derivable_pt_lim
    (fun x => output "Put Option Price: " x 50 48 (1/2) (4/10) "P" (2/100)) (5/100)
    (100 * output "Put Rho: " (5/100) 50 48 (1/2) (4/10) "P" (2/100)).
Proof. apply (price_rate_sensitivity (5/100) 50 48 (1/2) (4/10) (2/100)); lra. Defined.

Lemma price_volatility_sensitivity_witness :
  derivable_pt_lim
    (fun x => output "Call Option Price: " (5/100) 50 48 (1/2) x "C" (2/100)) (4/10)
    (100 * exp (- (2/100) * (1/2))
     * output "Vega: " (5/100) 50 48 (1/2) (4/10) "C" (2/100)) /\
  derivable_pt_lim
    (fun x => output "Put Option Price: " (5/100) 50 48 (1/2) x "P" (2/100)) (4/10)
    (100 * exp (- (2/100) * (1/2))
     * output "Vega: " (5/100) 50 48 (1/2) (4/10) "P" (2/100)).
Proof.
  apply (price_volatility_sensitivity (5/100) 50 48 (1/2) (4/10) (2/100)); lra.
Defined.

Lemma price_time_sensitivity_witness :
  derivable_pt_lim
    (fun t => output "Call Option Price: " (5/100) 50 48 t (4/10) "C" (2/100)) (1/2)
    (- 252 * Spec.call_theta (5/100) 50 48 (1/2) (4/10) (2/100)) /\
  derivable_pt_lim
    (fun t => output "Put Option Price: " (5/100) 50 48 t (4/10) "P" (2/100)) (1/2)
    (- 252 * Spec.put_theta (5/100) 50 48 (1/2) (4/10) (2/100)).
Proof. apply (price_time_sensitivity (5/100) 50 48 (1/2) (4/10) (2/100)); lra. Defined.

(** ** Monotonicity *)

Lemma increasing_from_derivative (f f' : R -> R) (a b : R) :
  a < b ->
  (forall c, a <= c <= b -> derivable_pt_lim f c (f' c)) ->
  (forall c, a <= c <= b -> 0 < f' c) ->
  f a < f b.
Proof.
  intros Hab Hd Hpos.
  destruct (MVT_cor2 f f' a b Hab Hd) as [c [Hc1 Hc2]].
  assert (0 < f' c * (b - a)).
  { apply Rmult_lt_0_compat; [apply Hpos; lra | lra]. }
  lra.
Qed.

(** X15: for S > 0, K > 0, T > 0 the printed price, of a Call and of a
    Put, is strictly increasing in the volatility on sigma > 0. *)
Theorem price_increasing_in_volatility (r S K T q sigma1 sigma2 : R) :
  0 < S -> 0 < K -> 0 < T -> 0 < sigma1 -> sigma1 < sigma2 ->
  output "Call Option Price: " r S K T sigma1 "C" q
  < output "Call Option Price: " r S K T sigma2 "C" q /\
  output "Put Option Price: " r S K T sigma1 "P" q
  < output "Put Option Price: " r S K T sigma2 "P" q.
Proof.
  intros HS HK HT H1 H12. assert (HK0 : K <> 0) by lra.
  rewrite !output_call_price, !output_put_price by exact HK0.
  assert (Hpos : forall c, sigma1 <= c <= sigma2 ->
                 0 < S * exp (- q * T) * Spec.N' (Spec.d1 r S K T c q) * sqrt T).
  { intros c _. apply Rmult_lt_0_compat; [| apply sqrt_lt_R0; exact HT].
    apply Rmult_lt_0_compat; [| apply std_pdf_pos].
    apply Rmult_lt_0_compat; [exact HS | apply exp_pos]. }
  split.
  - apply (increasing_from_derivative (fun x => Spec.call_price r S K T x q)
             (fun x => S * exp (- q * T) * Spec.N' (Spec.d1 r S K T x q) * sqrt T));
      [exact H12 | | exact Hpos].
    intros c Hc. apply call_price_derivable_sigma; lra.
  - apply (increasing_from_derivative (fun x => Spec.put_price r S K T x q)
             (fun x => S * exp (- q * T) * Spec.N' (Spec.d1 r S K T x q) * sqrt T));
      [exact H12 | | exact Hpos].
    intros c Hc. apply put_price_derivable_sigma; lra.
Qed.

(** X16: for K > 0, T > 0, sigma > 0 the printed Delta, of a Call and
    of a Put, is strictly increasing in the spot on S > 0. *)
Theorem delta_increasing_in_spot (r K T sigma q S1 S2 : R) :
  0 < K -> 0 < T -> 0 < sigma -> 0 < S1 -> S1 < S2 ->
  output "Call Delta: " r S1 K T sigma "C" q < output "Call Delta: " r S2 K T sigma "C" q /\
  output "Put Delta: " r S1 K T sigma "P" q < output "Put Delta: " r S2 K T sigma "P" q.
Proof.
  intros HK HT Hs H1 H12. assert (HK0 : K <> 0) by lra.
  rewrite !output_call_delta, !output_put_delta by exact HK0.
  assert (Hsq : 0 < sqrt T) by (apply sqrt_lt_R0; exact HT).
  assert (H : Spec.N (Spec.d1 r S1 K T sigma q) < Spec.N (Spec.d1 r S2 K T sigma q)).
  { apply (increasing_from_derivative (fun s => Spec.N (Spec.d1 r s K T sigma q))
             (fun s => Spec.N' (Spec.d1 r s K T sigma q) / (s * sigma * sqrt T)));
      [exact H12 | |].
    - intros c Hc. apply N_d1_derivable_S; lra.
    - intros c Hc. apply Rdiv_lt_0_compat; [apply std_pdf_pos |].
      apply Rmult_lt_0_compat; [| exact Hsq].
      apply Rmult_lt_0_compat; lra. }
  split; [exact H |].
  unfold Spec.N in *. rewrite !std_cdf_opp. lra.
Qed.

Lemma price_increasing_in_volatility_witness :
  output "Call Option Price: " (5/100) 50 48 (1/2) (4/10) "C" (2/100)
  < output "Call Option Price: " (5/100) 50 48 (1/2) (5/10) "C" (2/100) /\
  output "Put Option Price: " (5/100) 50 48 (1/2) (4/10) "P" (2/100)
  < output "Put Option Price: " (5/100) 50 48 (1/2) (5/10) "P" (2/100).
Proof.
  apply (price_increasing_in_volatility (5/100) 50 48 (1/2) (2/100) (4/10) (5/10)); lra.
Defined.

Lemma delta_increasing_in_spot_witness :
  output "Call Delta: " (5/100) 50 48 (1/2) (4/10) "C" (2/100)
  < output "Call Delta: " (5/100) 51 48 (1/2) (4/10) "C" (2/100) /\
  output "Put Delta: " (5/100) 50 48 (1/2) (4/10) "P" (2/100)
  < output "Put Delta: " (5/100) 51 48 (1/2) (4/10) "P" (2/100).
Proof.
  apply (delta_increasing_in_spot (5/100) 48 (1/2) (4/10) (2/100) 50 51); lra.
Defined.
